(** * Chirpy server: the chirp moderation pipeline and the metrics middleware

    A shallow embedding of [main.go]: [hasPunctuation], [processWords],
    [chirpHandler], [middlewareMetricsInc] and [resetMetricsHandler],
    together with the parts of Go's [unicode/utf8], [unicode] and [strings]
    packages they call.  The Unicode range tables and [encoding/json] are
    parameters.

    A Go [string] is a read-only sequence of bytes; it is modelled as a
    [list] of 8-bit characters.  A [rune] is an [int32], modelled in [Z]. *)

From Stdlib Require Import ZArith Bool Ascii String List Lia.
From Stdlib Require Import DecimalString DecimalZ DecimalPos.
Import ListNotations.
Local Open Scope Z_scope.

(** ** Bytes, strings, runes *)

Definition byte := ascii.
Definition gostring := list byte.
Definition rune := Z.

(** A Go string literal. *)
Definition lit (s : string) : gostring := list_ascii_of_string s.

(** [rune(b)], [int(b)]: the numeric value of a byte. *)
Definition byteZ (b : byte) : Z := Z.of_N (N_of_ascii b).

(** [byte(x)]: Go's truncating conversion of an integer to [uint8]. *)
Definition byte_of (x : Z) : byte := ascii_of_N (Z.to_N (x mod 256)).

(** [len(s)]: the number of BYTES of [s]. *)
Definition len (s : gostring) : Z := Z.of_nat (length s).

(** [uint32(r)] for an [int32] [r]. *)
Definition uint32 (r : Z) : Z := r mod 4294967296.

Definition gostring_eqb (a b : gostring) : bool :=
  if list_eq_dec ascii_dec a b then true else false.

(** ** Package [unicode/utf8] *)

Module utf8.

Definition RuneError : rune := 0xFFFD.
Definition RuneSelf : Z := 0x80.
Definition MaxRune : rune := 0x10FFFF.
Definition UTFMax : Z := 4.
Definition surrogateMin : Z := 0xD800.
Definition surrogateMax : Z := 0xDFFF.

Definition tx : Z := 0x80.
Definition t2 : Z := 0xC0.
Definition t3 : Z := 0xE0.
Definition t4 : Z := 0xF0.

Definition maskx : Z := 0x3F.
Definition mask2 : Z := 0x1F.
Definition mask3 : Z := 0x0F.
Definition mask4 : Z := 0x07.

Definition rune1Max : Z := 0x7F.
Definition rune2Max : Z := 0x7FF.
Definition rune3Max : Z := 0xFFFF.

Definition locb : Z := 0x80.
Definition hicb : Z := 0xBF.

(** Entries of the [first] table: the low three bits are the length of the
    sequence, the high four bits index [acceptRanges]. *)
Definition xx : Z := 0xF1.
Definition as_ : Z := 0xF0.
Definition s1 : Z := 0x02.
Definition s2 : Z := 0x13.
Definition s3 : Z := 0x03.
Definition s4 : Z := 0x23.
Definition s5 : Z := 0x34.
Definition s6 : Z := 0x04.
Definition s7 : Z := 0x44.

(** [first[b]], the table written as its ranges. *)
Definition first (b : Z) : Z :=
  if b <? 0x80 then as_
  else if b <? 0xC2 then xx
  else if b <? 0xE0 then s1
  else if b =? 0xE0 then s2
  else if b <? 0xED then s3
  else if b =? 0xED then s4
  else if b <? 0xF0 then s3
  else if b =? 0xF0 then s5
  else if b <? 0xF4 then s6
  else if b =? 0xF4 then s7
  else xx.

(** [acceptRanges[k]] as a pair [(lo, hi)]. *)
Definition acceptRanges (k : Z) : Z * Z :=
  if k =? 0 then (locb, hicb)
  else if k =? 1 then (0xA0, hicb)
  else if k =? 2 then (locb, 0x9F)
  else if k =? 3 then (0x90, hicb)
  else if k =? 4 then (locb, 0x8F)
  else (0, 0).

(** [s[i]] for an index known to be in range. *)
Definition at_ (s : gostring) (i : nat) : Z := byteZ (nth i s zero).

(** [DecodeRuneInString(s)]: the first rune of [s] and its width in bytes.
    An invalid or truncated encoding gives [(RuneError, 1)], the empty
    string [(RuneError, 0)]. *)
Definition DecodeRuneInString (s : gostring) : rune * nat :=
  let n := len s in
  if n <? 1 then (RuneError, 0%nat)
  else
    let s0 := at_ s 0 in
    let x := first s0 in
    if x >=? as_ then
      (* the mask trick: [s0] for [as], [RuneError] for [xx] *)
      ((if x =? xx then RuneError else s0), 1%nat)
    else
      let sz := Z.land x 7 in
      let accept := acceptRanges (Z.shiftr x 4) in
      if n <? sz then (RuneError, 1%nat)
      else
        let b1 := at_ s 1 in
        if (b1 <? fst accept) || (snd accept <? b1) then (RuneError, 1%nat)
        else if sz <=? 2 then
          (Z.lor (Z.shiftl (Z.land s0 mask2) 6) (Z.land b1 maskx), 2%nat)
        else
          let b2 := at_ s 2 in
          if (b2 <? locb) || (hicb <? b2) then (RuneError, 1%nat)
          else if sz <=? 3 then
            (Z.lor (Z.lor (Z.shiftl (Z.land s0 mask3) 12)
                          (Z.shiftl (Z.land b1 maskx) 6))
                   (Z.land b2 maskx), 3%nat)
          else
            let b3 := at_ s 3 in
            if (b3 <? locb) || (hicb <? b3) then (RuneError, 1%nat)
            else
              (Z.lor (Z.lor (Z.lor (Z.shiftl (Z.land s0 mask4) 18)
                                   (Z.shiftl (Z.land b1 maskx) 12))
                            (Z.shiftl (Z.land b2 maskx) 6))
                     (Z.land b3 maskx), 4%nat).

(** [RuneLen(r)]; [-1] when [r] is not a valid value to encode. *)
Definition RuneLen (r : rune) : Z :=
  if r <? 0 then -1
  else if r <=? rune1Max then 1
  else if r <=? rune2Max then 2
  else if (surrogateMin <=? r) && (r <=? surrogateMax) then -1
  else if r <=? rune3Max then 3
  else if r <=? MaxRune then 4
  else -1.

Definition encode3 (r : rune) : gostring :=
  [ byte_of (Z.lor t3 (byteZ (byte_of (Z.shiftr r 12))));
    byte_of (Z.lor tx (Z.land (byteZ (byte_of (Z.shiftr r 6))) maskx));
    byte_of (Z.lor tx (Z.land (byteZ (byte_of r)) maskx)) ].

(** [appendRuneNonASCII(nil, r)]. *)
Definition appendRuneNonASCII (r : rune) : gostring :=
  let i := uint32 r in
  if i <=? rune2Max then
    [ byte_of (Z.lor t2 (byteZ (byte_of (Z.shiftr r 6))));
      byte_of (Z.lor tx (Z.land (byteZ (byte_of r)) maskx)) ]
  else if (MaxRune <? i) || ((surrogateMin <=? i) && (i <=? surrogateMax))
  then encode3 RuneError
  else if i <=? rune3Max then encode3 r
  else
    [ byte_of (Z.lor t4 (byteZ (byte_of (Z.shiftr r 18))));
      byte_of (Z.lor tx (Z.land (byteZ (byte_of (Z.shiftr r 12))) maskx));
      byte_of (Z.lor tx (Z.land (byteZ (byte_of (Z.shiftr r 6))) maskx));
      byte_of (Z.lor tx (Z.land (byteZ (byte_of r)) maskx)) ].

(** [AppendRune(nil, r)]: the UTF-8 encoding of [r]; [RuneError] is
    encoded in place of a value out of range or a surrogate half. *)
Definition AppendRune (r : rune) : gostring :=
  if uint32 r <=? rune1Max then [byte_of r] else appendRuneNonASCII r.

End utf8.

(** ** The [range] clause over a string

    [for i, c := range s] decodes one UTF-8 sequence per iteration and
    yields the byte index [i] where it starts and its rune [c]; an invalid
    byte yields [RuneError] and advances by one byte.  Every iteration
    consumes at least one byte, so [length s] iterations always suffice. *)

Fixpoint range_from (fuel : nat) (i : nat) (t : gostring) : list (nat * rune) :=
  match fuel with
  | O => []
  | S fuel' =>
      match t with
      | [] => []
      | _ :: _ =>
          let '(c, size) := utf8.DecodeRuneInString t in
          (i, c) :: range_from fuel' (i + size)%nat (skipn size t)
      end
  end.

Definition range_string (s : gostring) : list (nat * rune) :=
  range_from (length s) 0 s.

(** ** Package [unicode]

    [IsPunct] and [ToLower] answer for Latin-1, respectively ASCII, from
    code of their own and consult the Unicode range tables ([unicode.Punct],
    [unicode.CaseRanges]) for everything else.  The tables belong to Go's
    standard library: they are parameters of the development. *)

Module unicode.

Definition MaxASCII : rune := 0x7F.
Definition MaxLatin1 : rune := 0xFF.

(** [properties[b] & pP != 0] for a Latin-1 code point [b]. *)
Definition latin1_pP (b : Z) : bool :=
  ((0x21 <=? b) && (b <=? 0x23)) ||
  ((0x25 <=? b) && (b <=? 0x2A)) ||
  ((0x2C <=? b) && (b <=? 0x2F)) ||
  ((0x3A <=? b) && (b <=? 0x3B)) ||
  ((0x3F <=? b) && (b <=? 0x40)) ||
  ((0x5B <=? b) && (b <=? 0x5D)) ||
  (b =? 0x5F) || (b =? 0x7B) || (b =? 0x7D) ||
  (b =? 0xA1) || (b =? 0xA7) || (b =? 0xAB) ||
  (b =? 0xB6) || (b =? 0xB7) || (b =? 0xBB) || (b =? 0xBF).

Section Tables.

(** [Is(Punct, r)]: membership in the range table of category P. *)
Variable Is_Punct : rune -> bool.
(** [To(LowerCase, r)]: the lower-case mapping of the case tables. *)
Variable To_LowerCase : rune -> rune.

Definition IsPunct (r : rune) : bool :=
  if uint32 r <=? MaxLatin1 then latin1_pP (uint32 r mod 256)
  else Is_Punct r.

Definition ToLower (r : rune) : rune :=
  if r <=? MaxASCII then
    if (65 <=? r) && (r <=? 90) then r + (97 - 65) else r
  else To_LowerCase r.

End Tables.

End unicode.

(** ** Package [strings] *)

Module strings.

(** [Split(s, sep)] for a separator of one byte, the only kind [main.go]
    passes: [s] is cut at every occurrence of the byte, which gives
    [Count(s, sep) + 1] pieces, empty ones included; the empty string
    gives one empty piece. *)
Fixpoint Split (s : gostring) (sep : byte) : list gostring :=
  match s with
  | [] => [[]]
  | c :: s' =>
      if Ascii.eqb c sep then [] :: Split s' sep
      else match Split s' sep with
           | w :: ws => (c :: w) :: ws
           | [] => [[c]]
           end
  end.

(** [Join(elems, sep)]. *)
Fixpoint Join (elems : list gostring) (sep : gostring) : gostring :=
  match elems with
  | [] => []
  | e :: rest =>
      match rest with
      | [] => e
      | _ :: _ => e ++ sep ++ Join rest sep
      end
  end.

Section Map.

Variable mapping : rune -> rune.

(** First loop of [Map]: look for the first rune that [mapping]
    changes.  The result is the content of the builder after
    [b.WriteString(s[:i])] and the write of the mapped rune, with the
    rest [s[i+width:]] of the input; [None] when the loop ends without
    a change. *)
Fixpoint Map_first (s : gostring) (its : list (nat * rune))
  : option (gostring * gostring) :=
  match its with
  | [] => None
  | (i, c) :: its' =>
      let r := mapping c in
      if (r =? c) && negb (c =? utf8.RuneError) then Map_first s its'
      else
        let '(c', width, continue) :=
          if c =? utf8.RuneError then
            let '(c', width) := utf8.DecodeRuneInString (skipn i s) in
            (c', Z.of_nat width,
             negb (Z.of_nat width =? 1) && (r =? c'))
          else (c, utf8.RuneLen c, false) in
        if continue then Map_first s its'
        else
          Some (firstn i s ++ (if r >=? 0 then utf8.AppendRune r else []),
                skipn (Z.to_nat (Z.of_nat i + width)) s)
  end.

(** Body of the second loop of [Map]: what one rune adds to the
    builder. *)
Definition Map_write (c : rune) : gostring :=
  let r := mapping c in
  if r >=? 0 then
    if r <? utf8.RuneSelf then [byte_of r] else utf8.AppendRune r
  else [].

(** [Map(mapping, s)]. *)
Definition Map (s : gostring) : gostring :=
  match Map_first s (range_string s) with
  | None => s
  | Some (b, rest) =>
      b ++ flat_map (fun ic => Map_write (snd ic)) (range_string rest)
  end.

End Map.

(** First loop of [ToLower]: is every byte ASCII, and is one of them an
    upper-case letter?  The loop stops at the first byte that is not
    ASCII. *)
Fixpoint ToLower_scan (s : gostring) (hasUpper : bool) : bool * bool :=
  match s with
  | [] => (true, hasUpper)
  | c :: s' =>
      if byteZ c >=? utf8.RuneSelf then (false, hasUpper)
      else ToLower_scan s' (hasUpper || ((65 <=? byteZ c) && (byteZ c <=? 90)))
  end.

(** The ASCII branch of [ToLower]: every byte in ['A'..'Z'] is moved to
    lower case, the others are copied. *)
Definition ToLower_ascii (c : byte) : byte :=
  if (65 <=? byteZ c) && (byteZ c <=? 90) then byte_of (byteZ c + (97 - 65))
  else c.

(** [ToLower(s)]. *)
Definition ToLower (To_LowerCase : rune -> rune) (s : gostring) : gostring :=
  let '(isASCII, hasUpper) := ToLower_scan s false in
  if isASCII then
    if negb hasUpper then s else map ToLower_ascii s
  else Map (unicode.ToLower To_LowerCase) s.

End strings.

(** ** [main.go] *)

(** Go's [error] as this program uses it: [nil], or the value made by
    [errors.New] from a message.  The program compares an error with [nil]
    only; the address of the value is not modelled. *)
Definition error := option gostring.
Definition errors_New (text : gostring) : error := Some text.

Definition space : byte := " "%char.
Definition mask : gostring := lit "****".

(** The error [processWords] returns when it has replaced a word. *)
Definition bad_word_error : error :=
  errors_New (lit "Bad word found in text").

Section Chirpy.

Variable Is_Punct : rune -> bool.
Variable To_LowerCase : rune -> rune.

(** [hasPunctuation]: the loop returns at the first punctuation rune. *)
Fixpoint hasPunctuation_loop (its : list (nat * rune)) : bool :=
  match its with
  | [] => false
  | (_, r) :: its' =>
      if unicode.IsPunct Is_Punct r then true else hasPunctuation_loop its'
  end.

Definition hasPunctuation (s : gostring) : bool :=
  hasPunctuation_loop (range_string s).

(** [a[i] = v] on a slice: [None] is the run-time panic of an index out
    of range. *)
Fixpoint store (a : list gostring) (i : nat) (v : gostring)
  : option (list gostring) :=
  match a, i with
  | [], _ => None
  | _ :: a', O => Some (v :: a')
  | x :: a', S i' =>
      match store a' i' v with
      | Some a'' => Some (x :: a'')
      | None => None
      end
  end.

Definition banned_words : list gostring :=
  [lit "kerfuffle"; lit "sharbert"; lit "fornax"].

(** The variables the two loops of [processWords] assign:
    [originalWords] and [foundBadWord]. *)
Definition loop_state : Type := list gostring * bool.

(** Body of the inner loop, for the word [word] at index [i] and the
    banned term [b]. *)
Definition inner_body (i : nat) (word b : gostring) (st : loop_state)
  : option loop_state :=
  if gostring_eqb b word then
    if negb (hasPunctuation word) then
      match store (fst st) i mask with
      | Some originalWords => Some (originalWords, true)
      | None => None
      end
    else Some st
  else Some st.

Fixpoint inner_loop (i : nat) (word : gostring) (banned : list gostring)
  (st : loop_state) : option loop_state :=
  match banned with
  | [] => Some st
  | b :: banned' =>
      match inner_body i word b st with
      | Some st' => inner_loop i word banned' st'
      | None => None
      end
  end.

Fixpoint outer_loop (i : nat) (lowerWords : list gostring)
  (banned : list gostring) (st : loop_state) : option loop_state :=
  match lowerWords with
  | [] => Some st
  | word :: lowerWords' =>
      match inner_loop i word banned st with
      | Some st' => outer_loop (S i) lowerWords' banned st'
      | None => None
      end
  end.

(** [processWords]; [None] is a run-time panic. *)
Definition processWords (input : gostring) : option (gostring * error) :=
  let banned := banned_words in
  let lowerWords := strings.Split (strings.ToLower To_LowerCase input) space in
  let originalWords := strings.Split input space in
  let foundBadWord := false in
  match outer_loop 0 lowerWords banned (originalWords, foundBadWord) with
  | None => None
  | Some (originalWords, foundBadWord) =>
      let input := strings.Join originalWords [space] in
      if foundBadWord then
        Some (input, errors_New (lit "Bad word found in text"))
      else Some (input, None)
  end.

(** *** The HTTP side

    [http.ResponseWriter] is modelled by the response it has produced so
    far: the header map, the status line once [WriteHeader] has been
    called, and the bytes written. *)

Record ResponseWriter : Type := mkResponseWriter {
  rw_header : list (gostring * gostring);
  rw_status : option Z;
  rw_body : gostring
}.

Fixpoint header_set (h : list (gostring * gostring)) (key value : gostring)
  : list (gostring * gostring) :=
  match h with
  | [] => [(key, value)]
  | (k, v) :: h' =>
      if gostring_eqb k key then (key, value) :: h'
      else (k, v) :: header_set h' key value
  end.

(** [w.Header().Set(key, value)]; once the status line is out the header
    of the response no longer changes. *)
Definition Header_Set (key value : gostring) (w : ResponseWriter)
  : ResponseWriter :=
  match rw_status w with
  | Some _ => w
  | None => mkResponseWriter (header_set (rw_header w) key value)
                             (rw_status w) (rw_body w)
  end.

(** [w.WriteHeader(code)]; a second call is ignored. *)
Definition WriteHeader (code : Z) (w : ResponseWriter) : ResponseWriter :=
  match rw_status w with
  | Some _ => w
  | None => mkResponseWriter (rw_header w) (Some code) (rw_body w)
  end.

(** [w.Write(dat)]; the first write sends status 200 when no status was
    sent before. *)
Definition Write (dat : gostring) (w : ResponseWriter) : ResponseWriter :=
  let w' := WriteHeader 200 w in
  mkResponseWriter (rw_header w') (rw_status w') (rw_body w' ++ dat).

Record Request : Type := mkRequest { req_Body : gostring }.

Record parameters : Type := mkparameters { Body : gostring }.
Record errorReturnVals : Type := mkerrorReturnVals { Error : gostring }.
Record cleanedReturnVals : Type :=
  mkcleanedReturnVals { CleanedBody : gostring }.

(** The values this program passes to [json.Marshal]. *)
Inductive jsonValue : Type :=
| of_errorReturnVals (v : errorReturnVals)
| of_cleanedReturnVals (v : cleanedReturnVals).

(** [encoding/json] is Go's standard library: decoding of a request body
    into [parameters] and [json.Marshal] are parameters. *)
Variable json_Decode : gostring -> parameters * error.
Variable json_Marshal : jsonValue -> gostring * error.

Inductive logLine : Type :=
| log_decoding (err : gostring)
| log_marshalling (err : gostring).

(** What a handler can reach besides its arguments: the counter
    [cfg.fileserverHits], an [atomic.Int32], and the output of [log]. *)
Record World : Type := mkWorld {
  fileserverHits : Z;
  log_output : list logLine
}.

Definition log_Printf (l : logLine) (sigma : World) : World :=
  mkWorld (fileserverHits sigma) (log_output sigma ++ [l]).

(** Two's complement wrap-around of an [int32]. *)
Definition wrap32 (z : Z) : Z := (z + 2147483648) mod 4294967296 - 2147483648.

(** [cfg.fileserverHits.Add(delta)]. *)
Definition fileserverHits_Add (delta : Z) (sigma : World) : World :=
  mkWorld (wrap32 (fileserverHits sigma + delta)) (log_output sigma).

(** [cfg.fileserverHits.Store(v)]. *)
Definition fileserverHits_Store (v : Z) (sigma : World) : World :=
  mkWorld v (log_output sigma).

(** An [http.Handler]: [ServeHTTP(w, r)] run in a world; [None] is a
    panic of the handler. *)
Definition Handler : Type :=
  ResponseWriter -> Request -> World -> option (ResponseWriter * World).

Definition content_type : gostring := lit "Content-Type".
Definition application_json : gostring := lit "application/json".

Definition resetMetricsHandler : Handler :=
  fun w r sigma =>
    let sigma := fileserverHits_Store 0 sigma in
    let w := WriteHeader 200 w in
    let w := Write (lit "OK") w in
    Some (w, sigma).

Definition middlewareMetricsInc (next : Handler) : Handler :=
  fun w r sigma =>
    let sigma := fileserverHits_Add 1 sigma in
    next w r sigma.

Definition chirpHandler : Handler :=
  fun w r sigma =>
    let '(params, err) := json_Decode (req_Body r) in
    match err with
    | Some e => Some (WriteHeader 500 w, log_Printf (log_decoding e) sigma)
    | None =>
        if len (Body params) >? 140 then
          let respBody := mkerrorReturnVals (lit "Chirp is too long") in
          let '(dat, err) := json_Marshal (of_errorReturnVals respBody) in
          match err with
          | Some e =>
              Some (WriteHeader 500 w, log_Printf (log_marshalling e) sigma)
          | None =>
              let w := Header_Set content_type application_json w in
              let w := WriteHeader 400 w in
              let w := Write dat w in
              Some (w, sigma)
          end
        else
          match processWords (Body params) with
          | None => None
          | Some (processedWords, _) =>
              let cleanedBody := mkcleanedReturnVals processedWords in
              let '(dat, err) :=
                json_Marshal (of_cleanedReturnVals cleanedBody) in
              match err with
              | Some e =>
                  Some (WriteHeader 500 w,
                        log_Printf (log_marshalling e) sigma)
              | None =>
                  let w := Header_Set content_type application_json w in
                  let w := WriteHeader 200 w in
                  let w := Write dat w in
                  Some (w, sigma)
              end
          end
    end.

End Chirpy.


(** ** The loops of [processWords], statement by statement

    A second reading of lines 144 to 161: the variables of the two loops
    are the state of a machine that runs one iteration of the inner loop
    per step.  [m_i] and [m_j] are the positions of the outer and of the
    inner [range]. *)

Record machine : Type := mkMachine {
  m_i : nat;
  m_j : nat;
  m_originalWords : list gostring;
  m_foundBadWord : bool
}.

Section Machine.

Variable Is_Punct : rune -> bool.
Variable lowerWords : list gostring.

Inductive step : machine -> machine -> Prop :=
| step_replace i j ows found word b ows' :
    nth_error lowerWords i = Some word ->
    nth_error banned_words j = Some b ->
    b = word ->
    hasPunctuation Is_Punct word = false ->
    store ows i mask = Some ows' ->
    step (mkMachine i j ows found) (mkMachine i (S j) ows' true)
| step_guarded i j ows found word b :
    nth_error lowerWords i = Some word ->
    nth_error banned_words j = Some b ->
    b = word ->
    hasPunctuation Is_Punct word = true ->
    step (mkMachine i j ows found) (mkMachine i (S j) ows found)
| step_differs i j ows found word b :
    nth_error lowerWords i = Some word ->
    nth_error banned_words j = Some b ->
    b <> word ->
    step (mkMachine i j ows found) (mkMachine i (S j) ows found)
| step_next_word i j ows found word :
    nth_error lowerWords i = Some word ->
    nth_error banned_words j = None ->
    step (mkMachine i j ows found) (mkMachine (S i) 0 ows found).

Inductive steps : machine -> machine -> Prop :=
| steps_refl m : steps m m
| steps_step m1 m2 m3 : step m1 m2 -> steps m2 m3 -> steps m1 m3.

(** The outer loop is over. *)
Definition final (m : machine) : Prop := nth_error lowerWords (m_i m) = None.

End Machine.

(** [returns input r]: a run of [processWords] on [input] reaches its
    [return] statements with the pair [r]. *)
Inductive returns (Is_Punct : rune -> bool) (To_LowerCase : rune -> rune)
  (input : gostring) : gostring * error -> Prop :=
| returns_intro m :
    steps Is_Punct
      (strings.Split (strings.ToLower To_LowerCase input) space)
      (mkMachine 0 0 (strings.Split input space) false) m ->
    final (strings.Split (strings.ToLower To_LowerCase input) space) m ->
    returns Is_Punct To_LowerCase input
      (strings.Join (m_originalWords m) [space],
       if m_foundBadWord m then bad_word_error else None).

(** A state where the store of the mask is out of range: the panic. *)
Definition panics (Is_Punct : rune -> bool) (lowerWords : list gostring)
  (m : machine) : Prop :=
  (forall m', ~ step Is_Punct lowerWords m m') /\ ~ final lowerWords m.

(** ** Vocabulary of the statements *)

(** [word] is equal to one of the banned terms. *)
Definition is_banned (word : gostring) : bool :=
  existsb (fun b => gostring_eqb b word) banned_words.

(** The condition under which [processWords] replaces a word of
    [lowerWords]: it equals a banned term and the guard lets it through. *)
Definition redacts (Is_Punct : rune -> bool) (word : gostring) : bool :=
  is_banned word && negb (hasPunctuation Is_Punct word).

(** What becomes of one word of the body. *)
Definition redact_word (Is_Punct : rune -> bool) (To_LowerCase : rune -> rune)
  (t : gostring) : gostring :=
  if redacts Is_Punct (strings.ToLower To_LowerCase t) then mask else t.

(** The runes of a string, in order: what [range] yields without the
    indices. *)
Definition runes (s : gostring) : list rune := map snd (range_string s).

(** A byte of a multi-byte sequence; an ASCII byte; an ASCII capital. *)
Definition high (b : byte) : Prop := 0x80 <= byteZ b.
Definition low (b : byte) : Prop := byteZ b < 0x80.
Definition upper (b : byte) : bool := (65 <=? byteZ b) && (byteZ b <=? 90).

(** What becomes of [originalWords[i]], given [lowerWords[i]]. *)
Definition redact_pair (Is_Punct : rune -> bool) (p : gostring * gostring)
  : gostring :=
  if redacts Is_Punct (fst p) then mask else snd p.

(** The body of the response to a chirp that passes the length check. *)
Definition cleaned_response (json_Marshal : jsonValue -> gostring * error)
  (out : gostring) : gostring :=
  fst (json_Marshal (of_cleanedReturnVals (mkcleanedReturnVals out))).

(** The body of the response to a chirp that fails it. *)
Definition too_long_response (json_Marshal : jsonValue -> gostring * error)
  : gostring :=
  fst (json_Marshal
         (of_errorReturnVals (mkerrorReturnVals (lit "Chirp is too long")))).

(** [processWords] as it would be without the test of [hasPunctuation]:
    a word is replaced as soon as it equals a banned term. *)
Definition inner_body_noguard (i : nat) (word b : gostring) (st : loop_state)
  : option loop_state :=
  if gostring_eqb b word then
    match store (fst st) i mask with
    | Some originalWords => Some (originalWords, true)
    | None => None
    end
  else Some st.

Fixpoint inner_loop_noguard (i : nat) (word : gostring)
  (banned : list gostring) (st : loop_state) : option loop_state :=
  match banned with
  | [] => Some st
  | b :: banned' =>
      match inner_body_noguard i word b st with
      | Some st' => inner_loop_noguard i word banned' st'
      | None => None
      end
  end.

Fixpoint outer_loop_noguard (i : nat) (lowerWords : list gostring)
  (banned : list gostring) (st : loop_state) : option loop_state :=
  match lowerWords with
  | [] => Some st
  | word :: lowerWords' =>
      match inner_loop_noguard i word banned st with
      | Some st' => outer_loop_noguard (S i) lowerWords' banned st'
      | None => None
      end
  end.

Definition processWords_noguard (To_LowerCase : rune -> rune)
  (input : gostring) : option (gostring * error) :=
  let lowerWords :=
    strings.Split (strings.ToLower To_LowerCase input) space in
  let originalWords := strings.Split input space in
  match outer_loop_noguard 0 lowerWords banned_words (originalWords, false) with
  | None => None
  | Some (originalWords, foundBadWord) =>
      let input := strings.Join originalWords [space] in
      if foundBadWord then Some (input, bad_word_error)
      else Some (input, None)
  end.

Definition lower_letter (b : byte) : Prop := 97 <= byteZ b <= 122.

(** [utf8.RuneCountInString(s)]: the number of characters of [s]. *)
Definition RuneCountInString (s : gostring) : Z :=
  Z.of_nat (length (range_string s)).

(** The three calls by which [chirpHandler] sends a JSON response. *)
Definition send_json (code : Z) (dat : gostring) (w : ResponseWriter)
  : ResponseWriter :=
  Write dat (WriteHeader code (Header_Set content_type application_json w)).

(** Requests served one after the other by one handler, each with its
    own response writer; the world at the end. *)
Fixpoint serve_all (h : Handler) (rs : list (ResponseWriter * Request))
  (sigma : World) : option World :=
  match rs with
  | [] => Some sigma
  | (w, r) :: rs' =>
      match h w r sigma with
      | Some (_, sigma') => serve_all h rs' sigma'
      | None => None
      end
  end.

(** The response writer a handler receives from the server. *)
Definition new_response : ResponseWriter := mkResponseWriter [] None [].

(** ** What the development asks of the Unicode tables *)

(** The lower-case table maps a code point above ASCII to a rune (an
    [int32]), and never to the space. *)
Definition LowerCase_no_space (To_LowerCase : rune -> rune) : Prop :=
  forall r, unicode.MaxASCII < r <= utf8.MaxRune ->
    -2147483648 <= To_LowerCase r <= 2147483647 /\ To_LowerCase r <> 32.

(** A punctuation character above ASCII has no other case. *)
Definition Punct_caseless (Is_Punct : rune -> bool)
  (To_LowerCase : rune -> rune) : Prop :=
  forall r, unicode.MaxASCII < r <= utf8.MaxRune ->
    unicode.IsPunct Is_Punct r = true -> To_LowerCase r = r.

(** ** Instances of the parameters

    Fragments of the Unicode tables and of [encoding/json], enough to run
    the model on examples. *)

(** General Punctuation, U+2010 to U+2027: dashes, quotation marks,
    daggers, bullets, ellipsis. *)
Definition Is_Punct_general (r : rune) : bool :=
  (0x2010 <=? r) && (r <=? 0x2027).

(** The Latin-1 capitals, LATIN CAPITAL LETTER I WITH DOT ABOVE and
    KELVIN SIGN. *)
Definition To_LowerCase_latin (r : rune) : rune :=
  if (0xC0 <=? r) && (r <=? 0xDE) && negb (r =? 0xD7) then r + 32
  else if r =? 0x130 then 0x69
  else if r =? 0x212A then 0x6B
  else r.

Definition dquote : byte := "034"%char.

(** A JSON object of one string member, for a value that needs no
    escape. *)
Definition json_object (name value : gostring) : gostring :=
  lit "{" ++ [dquote] ++ name ++ [dquote] ++ lit ":"
    ++ [dquote] ++ value ++ [dquote] ++ lit "}".

Definition plain_Marshal (v : jsonValue) : gostring * error :=
  match v with
  | of_errorReturnVals e => (json_object (lit "error") (Error e), None)
  | of_cleanedReturnVals c =>
      (json_object (lit "cleaned_body") (CleanedBody c), None)
  end.

Fixpoint strip_prefix (p s : gostring) : option gostring :=
  match p, s with
  | [], _ => Some s
  | _ :: _, [] => None
  | a :: p', b :: s' => if Ascii.eqb a b then strip_prefix p' s' else None
  end.

Definition strip_suffix (p s : gostring) : option gostring :=
  option_map (@rev byte) (strip_prefix (rev p) (rev s)).

(** Decoding of a request [{"body":"..."}] whose text has no escape. *)
Definition plain_Decode (body : gostring) : parameters * error :=
  match strip_prefix (lit "{" ++ [dquote] ++ lit "body" ++ [dquote]
                        ++ lit ":" ++ [dquote]) body with
  | Some rest =>
      match strip_suffix ([dquote] ++ lit "}") rest with
      | Some text => (mkparameters text, None)
      | None => (mkparameters [], Some (lit "unexpected end of JSON input"))
      end
  | None => (mkparameters [], Some (lit "invalid character"))
  end.

(** The request that carries the chirp [text]. *)
Definition chirp_request (text : gostring) : Request :=
  mkRequest (json_object (lit "body") text).

Definition world0 : World := mkWorld 0 [].

(** U+00E9, LATIN SMALL LETTER E WITH ACUTE: one character, two bytes. *)
Definition e_acute : gostring := ["195"%char; "169"%char].

(** The model run with the instances. *)
Definition run_processWords : gostring -> option (gostring * error) :=
  processWords Is_Punct_general To_LowerCase_latin.

Definition run_chirpHandler : Handler :=
  chirpHandler Is_Punct_general To_LowerCase_latin plain_Decode plain_Marshal.

(** A chirp with a banned term, and its cleaned text. *)
Definition opinion : gostring :=
  lit "This is a kerfuffle opinion I need to share with the world".

Definition opinion_cleaned : gostring :=
  lit "This is a **** opinion I need to share with the world".

(** ** The other handlers of [main.go] and the routes of [main] *)

Definition text_plain : gostring := lit "text/plain; charset=utf-8".
Definition text_html : gostring := lit "text/html; charset=utf-8".

Definition readinessHandler : Handler :=
  fun w r sigma =>
    let w := Header_Set content_type text_plain w in
    let w := WriteHeader 200 w in
    let w := Write (lit "OK") w in
    Some (w, sigma).

Definition newline : byte := "010"%char.
Definition tab : byte := "009"%char.

(** [htmlTemplate], cut at its verb [%d]: six lines, the inner ones
    indented with five and six tabs. *)
Definition htmlTemplate_before : gostring :=
  lit "<html>" ++ [newline]
    ++ repeat tab 5 ++ lit "<body>" ++ [newline]
    ++ repeat tab 6 ++ lit "<h1>Welcome, Chirpy Admin</h1>" ++ [newline]
    ++ repeat tab 6 ++ lit "<p>Chirpy has been visited ".

Definition htmlTemplate_after : gostring :=
  lit " times!</p>" ++ [newline]
    ++ repeat tab 5 ++ lit "</body>" ++ [newline]
    ++ repeat tab 5 ++ lit "</html>".

(** The verb [%d] of package [fmt] on an integer: decimal digits, with a
    minus sign for a negative value. *)
Definition fmt_d (n : Z) : gostring :=
  list_ascii_of_string (NilZero.string_of_int (Z.to_int n)).

(** [fmt.Sprintf(htmlTemplate, count)]. *)
Definition Sprintf_htmlTemplate (count : Z) : gostring :=
  htmlTemplate_before ++ fmt_d count ++ htmlTemplate_after.

(** [getMetricsHandler]; [fmt.Fprintf(w, ...)] is one [w.Write] of the
    formatted text. *)
Definition getMetricsHandler : Handler :=
  fun w r sigma =>
    let count := fileserverHits sigma in
    let w := Header_Set content_type text_html w in
    let w := WriteHeader 200 w in
    let w := Write (Sprintf_htmlTemplate count) w in
    Some (w, sigma).

(** The six patterns [main] registers with the [http.ServeMux]. *)
Inductive pattern : Type :=
| pat_app              (* "/app/" *)
| pat_healthz          (* "GET /api/healthz" *)
| pat_metrics          (* "GET /admin/metrics" *)
| pat_reset            (* "POST /admin/reset" *)
| pat_validate_chirp   (* "POST /api/validate_chirp" *)
| pat_users.           (* "POST /api/users" *)

Section Main.

Variable Is_Punct : rune -> bool.
Variable To_LowerCase : rune -> rune.
Variable json_Decode : gostring -> parameters * error.
Variable json_Marshal : jsonValue -> gostring * error.

(** [http.StripPrefix("/app", http.FileServer(http.Dir(".")))]: the file
    system is outside the program. *)
Variable fileServer : Handler.

(** [cfg.createUserHandler] calls the database package, which is outside
    this file. *)
Variable createUserHandler : Handler.

(** The handler each registration of [main] binds to its pattern. *)
Definition routes (p : pattern) : Handler :=
  match p with
  | pat_app => middlewareMetricsInc fileServer
  | pat_healthz => readinessHandler
  | pat_metrics => getMetricsHandler
  | pat_reset => resetMetricsHandler
  | pat_validate_chirp =>
      chirpHandler Is_Punct To_LowerCase json_Decode json_Marshal
  | pat_users => createUserHandler
  end.

(** The matching of a request against the registered patterns, and what
    the mux answers by itself when none matches, belong to [net/http]. *)
Variable ServeMux_match : Request -> option pattern.
Variable ServeMux_unmatched : Handler.

(** [mux.ServeHTTP], the handler of the server. *)
Definition ServeMux_ServeHTTP : Handler :=
  fun w r sigma =>
    match ServeMux_match r with
    | Some p => routes p w r sigma
    | None => ServeMux_unmatched w r sigma
    end.

End Main.

(** The world [main] starts the server in: [fileserverHits] is the zero
    [atomic.Int32]. *)
Definition initial_world : World := mkWorld 0 [].

(** Reading the counter back from a metrics page. *)
Definition atoi (s : gostring) : option Z :=
  option_map Z.of_int (NilZero.int_of_string (string_of_list_ascii s)).

Definition read_count (page : gostring) : option Z :=
  match strip_prefix htmlTemplate_before page with
  | Some rest =>
      match strip_suffix htmlTemplate_after rest with
      | Some digits => atoi digits
      | None => None
      end
  | None => None
  end.

(** The requests of a sequence that the mux sends to [pat_app], and the
    requests after the last one it sends to [pat_reset]. *)
Definition goes_to (ServeMux_match : Request -> option pattern) (p : pattern)
  (wr : ResponseWriter * Request) : bool :=
  match ServeMux_match (snd wr), p with
  | Some pat_app, pat_app
  | Some pat_healthz, pat_healthz
  | Some pat_metrics, pat_metrics
  | Some pat_reset, pat_reset
  | Some pat_validate_chirp, pat_validate_chirp
  | Some pat_users, pat_users => true
  | _, _ => false
  end.

Definition count_app (ServeMux_match : Request -> option pattern)
  (rs : list (ResponseWriter * Request)) : Z :=
  Z.of_nat (length (filter (goes_to ServeMux_match pat_app) rs)).

Fixpoint after_last_reset (ServeMux_match : Request -> option pattern)
  (rs : list (ResponseWriter * Request))
  : option (list (ResponseWriter * Request)) :=
  match rs with
  | [] => None
  | wr :: rs' =>
      match after_last_reset ServeMux_match rs' with
      | Some t => Some t
      | None =>
          if goes_to ServeMux_match pat_reset wr then Some rs' else None
      end
  end.

(** A handler that leaves the counter as it found it. *)
Definition keeps_counter (h : Handler) : Prop :=
  forall w r s w' s',
    h w r s = Some (w', s') -> fileserverHits s' = fileserverHits s.

(** The counter is an [int32]. *)
Definition int32_range (z : Z) : Prop := -2147483648 <= z <= 2147483647.

(** The number of occurrences of a byte. *)
Definition count_byte (c : byte) (s : gostring) : nat :=
  count_occ ascii_dec s c.

(** The lower-case table that maps nothing. *)
Definition To_LowerCase_none (r : rune) : rune := r.

(** A file server that answers every request with the same page, and the
    mux's own answer to a request no pattern matches. *)
Definition fixed_fileServer : Handler :=
  fun w r sigma => Some (Write (lit "<html>Welcome to Chirpy</html>") w, sigma).

Definition not_found : Handler :=
  fun w r sigma =>
    Some (Write (lit "404 page not found") (WriteHeader 404 w), sigma).

(** A mux matching on the first byte of the request body, to run
    sequences of requests: [a]pp, [m]etrics, [r]eset, [h]ealthz. *)
Definition letter_match (r : Request) : option pattern :=
  match req_Body r with
  | c :: _ =>
      if Ascii.eqb c "a"%char then Some pat_app
      else if Ascii.eqb c "m"%char then Some pat_metrics
      else if Ascii.eqb c "r"%char then Some pat_reset
      else if Ascii.eqb c "h"%char then Some pat_healthz
      else None
  | [] => None
  end.

(** A sequence of requests for that mux, each with a fresh response. *)
Definition served : list (ResponseWriter * Request) :=
  map (fun s => (new_response, mkRequest (lit s)))
      ["a"; "a"; "h"; "r"; "a"; "m"; "x"; "a"; "a"]%string.

(** [utf8.ValidString(s)]: [s] is made of valid UTF-8 sequences only,
    that is, no step of the decoder falls back on [(RuneError, 1)]. *)
Fixpoint ValidString_from (fuel : nat) (t : gostring) : bool :=
  match fuel with
  | O => match t with [] => true | _ :: _ => false end
  | S fuel' =>
      match t with
      | [] => true
      | _ :: _ =>
          let '(c, size) := utf8.DecodeRuneInString t in
          if (c =? utf8.RuneError) && Nat.eqb size 1 then false
          else ValidString_from fuel' (skipn size t)
      end
  end.

Definition utf8_ValidString (s : gostring) : bool :=
  ValidString_from (length s) s.

(** * Facts about bytes and bit operations *)

Lemma byteZ_range (b : byte) : 0 <= byteZ b < 256.
Proof.
  unfold byteZ. pose proof (N_ascii_bounded b). lia.
Qed.

Lemma byte_of_byteZ (b : byte) : byte_of (byteZ b) = b.
Proof.
  unfold byte_of. pose proof (byteZ_range b) as Hb.
  rewrite Z.mod_small by exact Hb.
  unfold byteZ. rewrite N2Z.id. apply ascii_N_embedding.
Qed.

Lemma byteZ_byte_of (x : Z) : byteZ (byte_of x) = x mod 256.
Proof.
  unfold byteZ, byte_of.
  pose proof (Z.mod_pos_bound x 256 ltac:(lia)) as Hm.
  rewrite N_ascii_embedding by lia.
  rewrite Z2N.id; lia.
Qed.

Lemma byteZ_inj (a b : byte) : byteZ a = byteZ b -> a = b.
Proof.
  intros H. rewrite <- (byte_of_byteZ a), <- (byte_of_byteZ b). now rewrite H.
Qed.

Lemma land_pow2_low (hi lo k : Z) :
  0 <= k -> 0 <= lo < 2 ^ k -> Z.land (hi * 2 ^ k) lo = 0.
Proof.
  intros Hk Hlo. apply Z.bits_inj'. intros n Hn.
  rewrite Z.land_spec, Z.bits_0.
  destruct (Z.lt_ge_cases n k) as [Hlt | Hge].
  - rewrite Z.mul_pow2_bits_low by lia. reflexivity.
  - destruct (Z.eq_dec lo 0) as [-> | Hnz].
    + rewrite Z.bits_0. apply andb_false_r.
    + rewrite (Z.bits_above_log2 lo n); [apply andb_false_r | lia |].
      apply Z.log2_lt_pow2; [lia |].
      apply Z.lt_le_trans with (2 ^ k); [lia |].
      apply Z.pow_le_mono_r; lia.
Qed.

(** [hi<<k | lo] is the sum when [lo] fits in [k] bits. *)
Lemma lor_pow2_add (hi lo k : Z) :
  0 <= k -> 0 <= lo < 2 ^ k -> Z.lor (hi * 2 ^ k) lo = hi * 2 ^ k + lo.
Proof.
  intros Hk Hlo. rewrite <- Z.add_lor_land.
  rewrite land_pow2_low by assumption. lia.
Qed.

Lemma land_mask (x k : Z) : 0 <= k -> Z.land x (2 ^ k - 1) = x mod 2 ^ k.
Proof.
  intros Hk. rewrite <- Z.land_ones by exact Hk.
  f_equal. rewrite Z.ones_equiv. lia.
Qed.

Lemma lor_add (a b k : Z) :
  0 <= k -> a mod 2 ^ k = 0 -> 0 <= b < 2 ^ k -> Z.lor a b = a + b.
Proof.
  intros Hk Ha Hb.
  assert (Hp : 0 < 2 ^ k) by (apply Z.pow_pos_nonneg; lia).
  rewrite (Z.div_mod a (2 ^ k)) at 1 2 by lia.
  rewrite Ha, Z.add_0_r, (Z.mul_comm (2 ^ k)).
  apply lor_pow2_add; assumption.
Qed.

Ltac bits_to_arith :=
  repeat first
    [ rewrite byteZ_byte_of
    | rewrite Z.shiftl_mul_pow2 by lia
    | rewrite Z.shiftr_div_pow2 by lia
    | progress change utf8.maskx with (2 ^ 6 - 1)
    | progress change utf8.mask2 with (2 ^ 5 - 1)
    | progress change utf8.mask3 with (2 ^ 4 - 1)
    | progress change utf8.mask4 with (2 ^ 3 - 1)
    | rewrite land_mask by lia ].

Ltac euclid := Z.to_euclidean_division_equations; lia.

Lemma decode2_arith (s0 b1 : Z) :
  0xC2 <= s0 <= 0xDF -> 0x80 <= b1 <= 0xBF ->
  Z.lor (Z.shiftl (Z.land s0 utf8.mask2) 6) (Z.land b1 utf8.maskx)
  = (s0 - 0xC0) * 64 + (b1 - 0x80).
Proof.
  intros H0 H1. bits_to_arith.
  rewrite lor_add with (k := 6); try lia; euclid.
Qed.

Lemma decode3_arith (s0 b1 b2 : Z) :
  0xE0 <= s0 <= 0xEF -> 0x80 <= b1 <= 0xBF -> 0x80 <= b2 <= 0xBF ->
  Z.lor (Z.lor (Z.shiftl (Z.land s0 utf8.mask3) 12)
               (Z.shiftl (Z.land b1 utf8.maskx) 6))
        (Z.land b2 utf8.maskx)
  = (s0 - 0xE0) * 4096 + (b1 - 0x80) * 64 + (b2 - 0x80).
Proof.
  intros H0 H1 H2. bits_to_arith.
  rewrite (lor_add _ (b1 mod 2 ^ 6 * 2 ^ 6) 12); try lia; try euclid.
  rewrite lor_add with (k := 6); try lia; euclid.
Qed.

Lemma decode4_arith (s0 b1 b2 b3 : Z) :
  0xF0 <= s0 <= 0xF4 -> 0x80 <= b1 <= 0xBF -> 0x80 <= b2 <= 0xBF ->
  0x80 <= b3 <= 0xBF ->
  Z.lor (Z.lor (Z.lor (Z.shiftl (Z.land s0 utf8.mask4) 18)
                      (Z.shiftl (Z.land b1 utf8.maskx) 12))
               (Z.shiftl (Z.land b2 utf8.maskx) 6))
        (Z.land b3 utf8.maskx)
  = (s0 - 0xF0) * 262144 + (b1 - 0x80) * 4096 + (b2 - 0x80) * 64 + (b3 - 0x80).
Proof.
  intros H0 H1 H2 H3. bits_to_arith.
  rewrite (lor_add _ (b1 mod 2 ^ 6 * 2 ^ 12) 18); try lia; try euclid.
  rewrite (lor_add _ (b2 mod 2 ^ 6 * 2 ^ 6) 12); try lia; try euclid.
  rewrite lor_add with (k := 6); try lia; euclid.
Qed.

Lemma lor_t2 (y : Z) : 0 <= y < 32 -> Z.lor utf8.t2 y = 0xC0 + y.
Proof. intros. change utf8.t2 with (3 * 2 ^ 6). rewrite lor_pow2_add; lia. Qed.
Lemma lor_t3 (y : Z) : 0 <= y < 16 -> Z.lor utf8.t3 y = 0xE0 + y.
Proof. intros. change utf8.t3 with (7 * 2 ^ 5). rewrite lor_pow2_add; lia. Qed.
Lemma lor_t4 (y : Z) : 0 <= y < 8 -> Z.lor utf8.t4 y = 0xF0 + y.
Proof. intros. change utf8.t4 with (15 * 2 ^ 4). rewrite lor_pow2_add; lia. Qed.
Lemma lor_tx (y : Z) : 0 <= y < 64 -> Z.lor utf8.tx y = 0x80 + y.
Proof. intros. change utf8.tx with (1 * 2 ^ 7). rewrite lor_pow2_add; lia. Qed.

Lemma AppendRune1 (c : Z) : 0 <= c <= 0x7F -> utf8.AppendRune c = [byte_of c].
Proof.
  intros H. unfold utf8.AppendRune, uint32.
  rewrite Z.mod_small by lia.
  replace (c <=? utf8.rune1Max) with true; [reflexivity |].
  symmetry. apply Z.leb_le. unfold utf8.rune1Max. lia.
Qed.

Lemma AppendRune2 (p q : Z) :
  0 <= p < 32 -> 0 <= q < 64 -> 0x80 <= p * 64 + q ->
  utf8.AppendRune (p * 64 + q) = [byte_of (0xC0 + p); byte_of (0x80 + q)].
Proof.
  intros Hp Hq Hc. unfold utf8.AppendRune, utf8.appendRuneNonASCII, uint32.
  rewrite Z.mod_small by lia.
  replace (p * 64 + q <=? utf8.rune1Max) with false
    by (symmetry; apply Z.leb_gt; unfold utf8.rune1Max; lia).
  replace (p * 64 + q <=? utf8.rune2Max) with true
    by (symmetry; apply Z.leb_le; unfold utf8.rune2Max; lia).
  bits_to_arith.
  rewrite lor_t2, lor_tx by euclid.
  repeat f_equal; euclid.
Qed.

Lemma AppendRune3 (p q r : Z) :
  0 <= p < 16 -> 0 <= q < 64 -> 0 <= r < 64 ->
  0x800 <= p * 4096 + q * 64 + r ->
  ~ (0xD800 <= p * 4096 + q * 64 + r <= 0xDFFF) ->
  utf8.AppendRune (p * 4096 + q * 64 + r)
  = [byte_of (0xE0 + p); byte_of (0x80 + q); byte_of (0x80 + r)].
Proof.
  intros Hp Hq Hr Hc Hs.
  unfold utf8.AppendRune, utf8.appendRuneNonASCII, uint32.
  rewrite Z.mod_small by lia.
  set (c := p * 4096 + q * 64 + r) in *.
  replace (c <=? utf8.rune1Max) with false
    by (symmetry; apply Z.leb_gt; unfold utf8.rune1Max; lia).
  replace (c <=? utf8.rune2Max) with false
    by (symmetry; apply Z.leb_gt; unfold utf8.rune2Max; lia).
  replace (utf8.MaxRune <? c) with false
    by (symmetry; apply Z.ltb_ge; unfold utf8.MaxRune; lia).
  replace ((utf8.surrogateMin <=? c) && (c <=? utf8.surrogateMax)) with false.
  2:{ symmetry. apply andb_false_iff.
      unfold utf8.surrogateMin, utf8.surrogateMax.
      rewrite Z.leb_gt, Z.leb_gt. lia. }
  replace (c <=? utf8.rune3Max) with true
    by (symmetry; apply Z.leb_le; unfold utf8.rune3Max; lia).
  cbn [orb]. unfold utf8.encode3. bits_to_arith. subst c.
  rewrite lor_t3, !lor_tx by euclid.
  repeat f_equal; euclid.
Qed.

Lemma AppendRune4 (p q r s : Z) :
  0 <= p < 8 -> 0 <= q < 64 -> 0 <= r < 64 -> 0 <= s < 64 ->
  0x10000 <= p * 262144 + q * 4096 + r * 64 + s <= 0x10FFFF ->
  utf8.AppendRune (p * 262144 + q * 4096 + r * 64 + s)
  = [byte_of (0xF0 + p); byte_of (0x80 + q); byte_of (0x80 + r);
     byte_of (0x80 + s)].
Proof.
  intros Hp Hq Hr Hs Hc.
  unfold utf8.AppendRune, utf8.appendRuneNonASCII, uint32.
  rewrite Z.mod_small by lia.
  set (c := p * 262144 + q * 4096 + r * 64 + s) in *.
  replace (c <=? utf8.rune1Max) with false
    by (symmetry; apply Z.leb_gt; unfold utf8.rune1Max; lia).
  replace (c <=? utf8.rune2Max) with false
    by (symmetry; apply Z.leb_gt; unfold utf8.rune2Max; lia).
  replace (utf8.MaxRune <? c) with false
    by (symmetry; apply Z.ltb_ge; unfold utf8.MaxRune; lia).
  replace ((utf8.surrogateMin <=? c) && (c <=? utf8.surrogateMax)) with false.
  2:{ symmetry. apply andb_false_iff.
      unfold utf8.surrogateMin, utf8.surrogateMax.
      rewrite Z.leb_gt, Z.leb_gt. lia. }
  replace (c <=? utf8.rune3Max) with false
    by (symmetry; apply Z.leb_gt; unfold utf8.rune3Max; lia).
  cbn [orb]. bits_to_arith. subst c.
  rewrite lor_t4, !lor_tx by euclid.
  repeat f_equal; euclid.
Qed.

Lemma first_cases (s0 : Z) :
  0 <= s0 < 256 ->
  (s0 < 0x80 /\ utf8.first s0 = utf8.as_) \/
  ((0x80 <= s0 < 0xC2 \/ 0xF4 < s0) /\ utf8.first s0 = utf8.xx) \/
  (0xC2 <= s0 < 0xE0 /\ utf8.first s0 = utf8.s1) \/
  (s0 = 0xE0 /\ utf8.first s0 = utf8.s2) \/
  ((0xE1 <= s0 < 0xED \/ 0xEE <= s0 < 0xF0) /\ utf8.first s0 = utf8.s3) \/
  (s0 = 0xED /\ utf8.first s0 = utf8.s4) \/
  (s0 = 0xF0 /\ utf8.first s0 = utf8.s5) \/
  (0xF1 <= s0 < 0xF4 /\ utf8.first s0 = utf8.s6) \/
  (s0 = 0xF4 /\ utf8.first s0 = utf8.s7).
Proof.
  intros H. unfold utf8.first.
  repeat match goal with
         | |- context [if ?b then _ else _] => destruct b eqn:?
         end;
  rewrite ?Z.ltb_lt, ?Z.ltb_ge, ?Z.eqb_eq, ?Z.eqb_neq in *;
  try lia; tauto || (intuition lia).
Qed.

Ltac boolZ :=
  repeat match goal with
         | H : (_ || _) = false |- _ => apply orb_false_iff in H; destruct H
         | H : (_ <? _) = true |- _ => apply Z.ltb_lt in H
         | H : (_ <? _) = false |- _ => apply Z.ltb_ge in H
         | H : (_ <=? _) = true |- _ => apply Z.leb_le in H
         | H : (_ <=? _) = false |- _ => apply Z.leb_gt in H
         | H : (_ =? _) = true |- _ => apply Z.eqb_eq in H
         | H : (_ =? _) = false |- _ => apply Z.eqb_neq in H
         end.

Ltac split_ifs H :=
  repeat match type of H with
         | context [if ?b then _ else _] => destruct b eqn:?
         end.

Lemma RuneLen_cases (c : Z) :
  (0 <= c <= 0x7F -> utf8.RuneLen c = 1) /\
  (0x80 <= c <= 0x7FF -> utf8.RuneLen c = 2) /\
  (0x800 <= c <= 0xFFFF -> ~ (0xD800 <= c <= 0xDFFF) -> utf8.RuneLen c = 3) /\
  (0x10000 <= c <= 0x10FFFF -> utf8.RuneLen c = 4).
Proof.
  unfold utf8.RuneLen, utf8.rune1Max, utf8.rune2Max, utf8.rune3Max,
    utf8.MaxRune, utf8.surrogateMin, utf8.surrogateMax.
  repeat split; intros;
  repeat match goal with
         | |- context [if ?b then _ else _] => destruct b eqn:?
         end;
  try reflexivity;
  repeat match goal with
         | H : (_ && _) = true |- _ => apply andb_true_iff in H; destruct H
         | H : (_ && _) = false |- _ => apply andb_false_iff in H; destruct H
         end; boolZ; lia.
Qed.


Lemma len_cons (b : byte) (s : gostring) : len (b :: s) = 1 + len s.
Proof. unfold len. simpl length. lia. Qed.

Lemma len_nonneg (s : gostring) : 0 <= len s.
Proof. unfold len. lia. Qed.

Lemma at_0 b s : utf8.at_ (b :: s) 0 = byteZ b.
Proof. reflexivity. Qed.
Lemma at_S b s i : utf8.at_ (b :: s) (S i) = utf8.at_ s i.
Proof. reflexivity. Qed.
Lemma at_nil i : utf8.at_ [] i = 0.
Proof. destruct i; reflexivity. Qed.

Ltac decode_entry H x sz lo hi :=
  change (x >=? utf8.as_) with false in H;
  change (Z.land x 7) with sz in H;
  change (utf8.acceptRanges (Z.shiftr x 4)) with (lo, hi) in H;
  cbv iota beta zeta in H; cbn [fst snd] in H.

Ltac decode_short H :=
  rewrite ?at_S, ?at_0, ?at_nil, ?len_cons in H;
  change (len []) with 0 in H;
  match type of H with
  | context [?a <? ?b] => change (a <? b) with true in H
  end;
  cbv iota in H; apply pair_equal_spec in H; destruct H as [<- <-];
  left; split; reflexivity.

Ltac name_byte b s R B :=
  pose proof (byteZ_range b) as R;
  pose proof (byte_of_byteZ b) as B;
  let E := fresh in
  remember (byteZ b) as s eqn:E; clear E.

Ltac decode_leaves H :=
  unfold utf8.locb, utf8.hicb in H;
  split_ifs H; boolZ; try lia;
  apply pair_equal_spec in H; destruct H as [<- <-];
  try (left; split; reflexivity).

Ltac decode2_case H b0 B0 s0 x lo hi :=
  decode_entry H x 2 lo hi;
  let b1 := fresh "b1" in let rest := fresh "rest" in
  match type of H with
  | context [len (_ :: ?r)] =>
      destruct r as [| b1 rest]; [decode_short H |]
  end;
  rewrite ?at_S, ?at_0, ?len_cons in H;
  pose proof (len_nonneg rest);
  let s1 := fresh "s1" in let R1 := fresh "R1" in let B1 := fresh "B1" in
  name_byte b1 s1 R1 B1;
  change (2 <=? 2) with true in H;
  decode_leaves H;
  right; rewrite decode2_arith by lia;
  destruct (RuneLen_cases ((s0 - 192) * 64 + (s1 - 128))) as (_ & L2 & _);
  rewrite L2 by lia; rewrite AppendRune2 by lia;
  replace (192 + (s0 - 192)) with s0 by lia;
  replace (128 + (s1 - 128)) with s1 by lia;
  rewrite B0, B1; simpl; repeat split; lia.

Ltac decode3_case H b0 B0 s0 x lo hi :=
  decode_entry H x 3 lo hi;
  let b1 := fresh "b1" in let b2 := fresh "b2" in let rest := fresh "rest" in
  match type of H with
  | context [len (_ :: ?r)] =>
      destruct r as [| b1 [| b2 rest]];
      [decode_short H | decode_short H |]
  end;
  rewrite ?at_S, ?at_0, ?len_cons in H;
  pose proof (len_nonneg rest);
  let s1 := fresh "s1" in let R1 := fresh "R1" in let B1 := fresh "B1" in
  name_byte b1 s1 R1 B1;
  let s2 := fresh "s2" in let R2 := fresh "R2" in let B2 := fresh "B2" in
  name_byte b2 s2 R2 B2;
  change (3 <=? 2) with false in H;
  change (3 <=? 3) with true in H;
  decode_leaves H;
  right; rewrite decode3_arith by lia;
  destruct (RuneLen_cases ((s0 - 224) * 4096 + (s1 - 128) * 64 + (s2 - 128)))
    as (_ & _ & L3 & _);
  rewrite L3 by lia; rewrite AppendRune3 by lia;
  replace (224 + (s0 - 224)) with s0 by lia;
  replace (128 + (s1 - 128)) with s1 by lia;
  replace (128 + (s2 - 128)) with s2 by lia;
  rewrite B0, B1, B2; simpl; repeat split; lia.

Ltac decode4_case H b0 B0 s0 x lo hi :=
  decode_entry H x 4 lo hi;
  let b1 := fresh "b1" in let b2 := fresh "b2" in let b3 := fresh "b3" in
  let rest := fresh "rest" in
  match type of H with
  | context [len (_ :: ?r)] =>
      destruct r as [| b1 [| b2 [| b3 rest]]];
      [decode_short H | decode_short H | decode_short H |]
  end;
  rewrite ?at_S, ?at_0, ?len_cons in H;
  pose proof (len_nonneg rest);
  let s1 := fresh "s1" in let R1 := fresh "R1" in let B1 := fresh "B1" in
  name_byte b1 s1 R1 B1;
  let s2 := fresh "s2" in let R2 := fresh "R2" in let B2 := fresh "B2" in
  name_byte b2 s2 R2 B2;
  let s3 := fresh "s3" in let R3 := fresh "R3" in let B3 := fresh "B3" in
  name_byte b3 s3 R3 B3;
  change (4 <=? 2) with false in H;
  change (4 <=? 3) with false in H;
  decode_leaves H;
  right; rewrite decode4_arith by lia;
  destruct (RuneLen_cases ((s0 - 240) * 262144 + (s1 - 128) * 4096
                           + (s2 - 128) * 64 + (s3 - 128)))
    as (_ & _ & _ & L4);
  rewrite L4 by lia; rewrite AppendRune4 by lia;
  replace (240 + (s0 - 240)) with s0 by lia;
  replace (128 + (s1 - 128)) with s1 by lia;
  replace (128 + (s2 - 128)) with s2 by lia;
  replace (128 + (s3 - 128)) with s3 by lia;
  rewrite B0, B1, B2, B3; simpl; repeat split; lia.

Lemma DecodeRune_valid (t : gostring) (c : rune) (w : nat) :
  t <> [] -> utf8.DecodeRuneInString t = (c, w) ->
  (c = utf8.RuneError /\ w = 1%nat) \/
  (utf8.RuneLen c = Z.of_nat w /\ utf8.AppendRune c = firstn w t /\
   (w <= length t)%nat).
Proof.
  intros Hne H. destruct t as [| b0 rest]; [congruence |]. clear Hne.
  unfold utf8.DecodeRuneInString in H.
  replace (len (b0 :: rest) <? 1) with false in H
    by (symmetry; apply Z.ltb_ge; unfold len; simpl length; lia).
  rewrite at_0 in H.
  pose proof (byteZ_range b0) as R0.
  pose proof (byte_of_byteZ b0) as B0.
  remember (byteZ b0) as s0 eqn:Hs0. clear Hs0.
  destruct (RuneLen_cases s0) as [L1 _].
  destruct (first_cases s0 R0)
    as [[R E]|[[R E]|[[R E]|[[R E]|[[R E]|[[R E]|[[R E]|[[R E]|[R E]]]]]]]]];
    rewrite E in H.
  - (* ASCII *)
    change (utf8.as_ >=? utf8.as_) with true in H.
    change (utf8.as_ =? utf8.xx) with false in H. cbv iota in H.
    inversion H; subst c w. right. rewrite L1 by lia.
    rewrite AppendRune1 by lia. rewrite B0. simpl. repeat split; lia.
  - change (utf8.xx >=? utf8.as_) with true in H.
    change (utf8.xx =? utf8.xx) with true in H. cbv iota in H.
    inversion H. now left.
  - decode2_case H b0 B0 s0 utf8.s1 utf8.locb utf8.hicb.
  - decode3_case H b0 B0 s0 utf8.s2 0xA0 utf8.hicb.
  - decode3_case H b0 B0 s0 utf8.s3 utf8.locb utf8.hicb.
  - decode3_case H b0 B0 s0 utf8.s4 utf8.locb 0x9F.
  - decode4_case H b0 B0 s0 utf8.s5 0x90 utf8.hicb.
  - decode4_case H b0 B0 s0 utf8.s6 utf8.locb utf8.hicb.
  - decode4_case H b0 B0 s0 utf8.s7 utf8.locb 0x8F.
Qed.

Ltac decode_entry_goal x sz lo hi :=
  change (x >=? utf8.as_) with false;
  change (Z.land x 7) with sz;
  change (utf8.acceptRanges (Z.shiftr x 4)) with (lo, hi);
  cbv iota beta zeta; cbn [fst snd].

Ltac split_ifs_goal :=
  repeat match goal with
         | |- context [if ?b then _ else _] => destruct b eqn:?
         end.

Ltac decode_app_case x sz lo hi :=
  decode_entry_goal x sz lo hi;
  unfold utf8.locb, utf8.hicb;
  split_ifs_goal; boolZ; try reflexivity; lia.

(** A byte below [RuneSelf] after [t] is never taken for a continuation
    byte: what follows [t] does not change the first rune of [t]. *)
Lemma DecodeRune_app (t u : gostring) (a : byte) :
  t <> [] -> byteZ a < 0x80 ->
  utf8.DecodeRuneInString (t ++ a :: u) = utf8.DecodeRuneInString t.
Proof.
  intros Hne Ha.
  destruct t as [| b0 t]; [congruence |]. clear Hne.
  pose proof (byteZ_range a) as Ra.
  pose proof (len_nonneg u) as Hu.
  unfold utf8.DecodeRuneInString.
  destruct t as [| b1 [| b2 [| b3 t]]]; simpl app;
    rewrite ?at_S, ?at_0, ?at_nil, ?len_cons;
    change (len []) with 0;
    try pose proof (len_nonneg t) as Ht;
    try pose proof (len_nonneg (t ++ a :: u)) as Htu;
    pose proof (byteZ_range b0) as R0;
    remember (byteZ b0) as s0 eqn:Hs0; clear Hs0;
    remember (byteZ a) as sa eqn:Hsa; clear Hsa;
    remember (len u) as nu eqn:Hnu; clear Hnu;
    try (remember (len t) as nt eqn:Hnt; clear Hnt);
    try (pose proof (byteZ_range b1) as R1;
         remember (byteZ b1) as s1 eqn:Hs1; clear Hs1);
    try (pose proof (byteZ_range b2) as R2;
         remember (byteZ b2) as s2 eqn:Hs2; clear Hs2);
    try (pose proof (byteZ_range b3) as R3;
         remember (byteZ b3) as s3 eqn:Hs3; clear Hs3);
    (destruct (first_cases s0 R0)
      as [[R E]|[[R E]|[[R E]|[[R E]|[[R E]|[[R E]|[[R E]|[[R E]|[R E]]]]]]]]];
     rewrite E;
     [ change (utf8.as_ >=? utf8.as_) with true;
       change (utf8.as_ =? utf8.xx) with false; cbv iota;
       split_ifs_goal; boolZ; try reflexivity; lia
     | change (utf8.xx >=? utf8.as_) with true;
       change (utf8.xx =? utf8.xx) with true; cbv iota;
       split_ifs_goal; boolZ; try reflexivity; lia
     | decode_app_case utf8.s1 2 utf8.locb utf8.hicb
     | decode_app_case utf8.s2 3 0xA0 utf8.hicb
     | decode_app_case utf8.s3 3 utf8.locb utf8.hicb
     | decode_app_case utf8.s4 3 utf8.locb 0x9F
     | decode_app_case utf8.s5 4 0x90 utf8.hicb
     | decode_app_case utf8.s6 4 utf8.locb utf8.hicb
     | decode_app_case utf8.s7 4 utf8.locb 0x8F ]).
Qed.


(** ** Shape of an encoding *)


Lemma lor_high (b : byte) :
  (high (byte_of (Z.lor utf8.t2 (byteZ b))) /\
   high (byte_of (Z.lor utf8.t3 (byteZ b))) /\
   high (byte_of (Z.lor utf8.t4 (byteZ b)))) /\
  high (byte_of (Z.lor utf8.tx (Z.land (byteZ b) utf8.maskx))).
Proof.
  unfold high.
  destruct b as [[] [] [] [] [] [] [] []]; vm_compute;
    repeat split; discriminate.
Qed.

Lemma encode3_high (r : rune) : Forall high (utf8.encode3 r).
Proof.
  unfold utf8.encode3.
  repeat constructor; apply lor_high.
Qed.

Lemma AppendRune_high (r : rune) :
  0x7F < uint32 r -> Forall high (utf8.AppendRune r).
Proof.
  intros Hr. unfold utf8.AppendRune.
  replace (uint32 r <=? utf8.rune1Max) with false
    by (symmetry; apply Z.leb_gt; exact Hr).
  unfold utf8.appendRuneNonASCII.
  repeat match goal with
         | |- context [if ?b then _ else _] => destruct b
         end;
  try apply encode3_high; repeat constructor; apply lor_high.
Qed.

Lemma DecodeRune_ascii (a : byte) (u : gostring) :
  byteZ a < 0x80 -> utf8.DecodeRuneInString (a :: u) = (byteZ a, 1%nat).
Proof.
  intros Ha. unfold utf8.DecodeRuneInString.
  replace (len (a :: u) <? 1) with false
    by (symmetry; apply Z.ltb_ge; rewrite len_cons;
        pose proof (len_nonneg u); lia).
  rewrite at_0. unfold utf8.first.
  replace (byteZ a <? 128) with true by (symmetry; apply Z.ltb_lt; exact Ha).
  reflexivity.
Qed.

(** A decoded rune is [RuneError] or a Unicode scalar value. *)
Lemma RuneLen_pos (c : rune) :
  0 < utf8.RuneLen c ->
  0 <= c <= utf8.MaxRune /\ 1 <= utf8.RuneLen c <= 4.
Proof.
  unfold utf8.RuneLen, utf8.MaxRune, utf8.rune1Max, utf8.rune2Max,
    utf8.rune3Max.
  repeat match goal with
         | |- context [if ?b then _ else _] => destruct b eqn:?
         end; boolZ; lia.
Qed.

Lemma DecodeRune_width (t : gostring) (c : rune) (w : nat) :
  t <> [] -> utf8.DecodeRuneInString t = (c, w) ->
  (1 <= w <= length t)%nat.
Proof.
  intros Hne H.
  destruct (DecodeRune_valid t c w Hne H) as [[_ ->] | (L & _ & Hw)].
  - destruct t; [congruence | simpl; lia].
  - destruct w; [| lia].
    exfalso. clear - L. unfold utf8.RuneLen in L.
    repeat match type of L with
           | context [if ?b then _ else _] => destruct b
           end; simpl in L; lia.
Qed.

Lemma DecodeRune_range (t : gostring) (c : rune) (w : nat) :
  t <> [] -> utf8.DecodeRuneInString t = (c, w) -> 0 <= c <= utf8.MaxRune.
Proof.
  intros Hne H.
  pose proof (DecodeRune_width t c w Hne H) as Hw.
  destruct (DecodeRune_valid t c w Hne H) as [[-> _] | (L & _ & _)].
  - unfold utf8.RuneError, utf8.MaxRune. lia.
  - apply RuneLen_pos. lia.
Qed.

(** An ASCII rune comes from the byte of the same value. *)
Lemma DecodeRune_low (t : gostring) (c : rune) (w : nat) :
  t <> [] -> utf8.DecodeRuneInString t = (c, w) -> c < 0x80 ->
  w = 1%nat /\ exists t', t = byte_of c :: t'.
Proof.
  intros Hne H Hc.
  pose proof (DecodeRune_range t c w Hne H) as Hr.
  destruct (DecodeRune_valid t c w Hne H) as [[-> _] | (L & A & Hw)].
  - unfold utf8.RuneError in Hc. lia.
  - rewrite AppendRune1 in A by lia.
    destruct (RuneLen_cases c) as [L1 _]. rewrite L1 in L by lia.
    assert (w = 1%nat) by lia. subst w. split; [reflexivity |].
    destruct t as [| b t]; [congruence |]. simpl in A.
    injection A as ->. now exists t.
Qed.

(** ** The runes of a string *)


Lemma range_from_fuel (fuel : nat) (i : nat) (t : gostring) :
  (length t <= fuel)%nat ->
  map snd (range_from fuel i t) = runes t.
Proof.
  unfold runes, range_string.
  remember (length t) as n eqn:Hn.
  revert fuel i t Hn. induction n as [n IH] using lt_wf_ind.
  intros fuel i t Hn Hfuel.
  destruct t as [| b t'].
  - subst n. destruct fuel; reflexivity.
  - destruct fuel as [| fuel]; [simpl in *; lia |].
    subst n. cbn [length range_from].
    destruct (utf8.DecodeRuneInString (b :: t')) as [c w] eqn:D.
    assert (Hw : (1 <= w <= length (b :: t'))%nat)
      by (eapply DecodeRune_width; [discriminate | exact D]).
    cbn [map snd]. f_equal.
    assert (Hl : (length (skipn w (b :: t')) < length (b :: t'))%nat)
      by (rewrite length_skipn; lia).
    rewrite (IH _ Hl fuel (i + w)%nat _ eq_refl)
      by (simpl in *; lia).
    rewrite (IH _ Hl (length t') (0 + w)%nat _ eq_refl)
      by (simpl in *; lia).
    reflexivity.
Qed.

Lemma runes_nil : runes [] = [].
Proof. reflexivity. Qed.

Lemma runes_cons (t : gostring) (c : rune) (w : nat) :
  t <> [] -> utf8.DecodeRuneInString t = (c, w) ->
  runes t = c :: runes (skipn w t).
Proof.
  intros Hne D. destruct t as [| b t']; [congruence |].
  pose proof (DecodeRune_width _ _ _ Hne D) as Hw.
  unfold runes at 1, range_string. cbn [length range_from]. rewrite D.
  cbn [map snd]. f_equal.
  apply range_from_fuel. rewrite length_skipn.
  change (length (b :: t')) with (S (length t')) in *. lia.
Qed.

Lemma runes_ascii_cons (a : byte) (u : gostring) :
  byteZ a < 0x80 -> runes (a :: u) = byteZ a :: runes u.
Proof.
  intros Ha.
  rewrite (runes_cons (a :: u) (byteZ a) 1); [reflexivity | discriminate |].
  now apply DecodeRune_ascii.
Qed.

(** The runes before and after a byte below [RuneSelf] are decoded
    independently. *)
Lemma runes_app_ascii (t u : gostring) (a : byte) :
  byteZ a < 0x80 -> runes (t ++ a :: u) = runes t ++ byteZ a :: runes u.
Proof.
  intros Ha.
  remember (length t) as n eqn:Hn. revert t Hn.
  induction n as [n IH] using lt_wf_ind. intros t Hn.
  destruct t as [| b t'].
  - change (runes []) with (@nil rune). cbn [app].
    now apply runes_ascii_cons.
  - destruct (utf8.DecodeRuneInString (b :: t')) as [c w] eqn:D.
    assert (Hne : b :: t' <> []) by discriminate.
    pose proof (DecodeRune_width _ _ _ Hne D) as Hw.
    rewrite (runes_cons (b :: t') c w Hne D).
    rewrite (runes_cons ((b :: t') ++ a :: u) c w).
    + rewrite skipn_app.
      replace (w - length (b :: t'))%nat with 0%nat by lia.
      change (skipn 0 (a :: u)) with (a :: u).
      rewrite <- app_comm_cons. f_equal.
      eapply IH; [| reflexivity].
      subst n. rewrite length_skipn. lia.
    + discriminate.
    + rewrite DecodeRune_app by assumption. exact D.
Qed.


(** ** [strings.Map] and [strings.ToLower], rune by rune *)

Section MapFacts.

Variable mapping : rune -> rune.

Lemma Map_write_enc (c : rune) :
  strings.Map_write mapping c =
  if mapping c >=? 0 then utf8.AppendRune (mapping c) else [].
Proof.
  unfold strings.Map_write.
  destruct (mapping c >=? 0) eqn:Hge; [| reflexivity].
  destruct (mapping c <? utf8.RuneSelf) eqn:Hlt; [| reflexivity].
  unfold utf8.RuneSelf in Hlt. apply Z.ltb_lt in Hlt.
  apply Z.geb_le in Hge. rewrite AppendRune1 by lia. reflexivity.
Qed.

(** A rune that [mapping] keeps is written back as the bytes it was
    decoded from. *)
Lemma Map_write_fixed (t : gostring) (c : rune) (w : nat) :
  t <> [] -> utf8.DecodeRuneInString t = (c, w) ->
  mapping c = c -> (c <> utf8.RuneError \/ w <> 1%nat) ->
  strings.Map_write mapping c = firstn w t.
Proof.
  intros Hne D Hfix Hvalid.
  pose proof (DecodeRune_range t c w Hne D) as Hr.
  rewrite Map_write_enc, Hfix.
  replace (c >=? 0) with true by (symmetry; apply Z.geb_le; lia).
  destruct (DecodeRune_valid t c w Hne D) as [[-> ->] | (_ & A & _)].
  - destruct Hvalid; congruence.
  - exact A.
Qed.

Lemma flat_map_snd (A B C : Type) (g : B -> list C) (l : list (A * B)) :
  flat_map (fun ic => g (snd ic)) l = flat_map g (map snd l).
Proof.
  induction l as [| x l IH]; [reflexivity |].
  cbn [flat_map map]. now rewrite IH.
Qed.

Lemma Map_first_spec (fuel : nat) (pre t : gostring) :
  (length t <= fuel)%nat ->
  match strings.Map_first mapping (pre ++ t)
          (range_from fuel (length pre) t) with
  | None => flat_map (strings.Map_write mapping) (runes t) = t
  | Some (b, rest) =>
      b ++ flat_map (strings.Map_write mapping) (runes rest)
      = pre ++ flat_map (strings.Map_write mapping) (runes t)
  end.
Proof.
  revert pre t. induction fuel as [| fuel IH]; intros pre t Hfuel.
  - destruct t; [reflexivity | simpl in Hfuel; lia].
  - destruct t as [| b0 t0]; [reflexivity |].
    set (t := b0 :: t0) in *.
    assert (Hne : t <> []) by discriminate.
    change (range_from (S fuel) (length pre) t)
      with (let '(c, size) := utf8.DecodeRuneInString t in
            (length pre, c)
              :: range_from fuel (length pre + size) (skipn size t)).
    destruct (utf8.DecodeRuneInString t) as [c w] eqn:D.
    pose proof (DecodeRune_width t c w Hne D) as Hw.
    rewrite (runes_cons t c w Hne D). cbn [flat_map].
    assert (Hskip : (length (skipn w t) <= fuel)%nat).
    { rewrite length_skipn. subst t. simpl length in *. lia. }
    specialize (IH (pre ++ firstn w t) (skipn w t) Hskip).
    rewrite <- app_assoc, firstn_skipn in IH.
    rewrite length_app, firstn_length_le in IH by lia.
    assert (Hcont : strings.Map_write mapping c = firstn w t ->
      match strings.Map_first mapping (pre ++ t)
              (range_from fuel (length pre + w) (skipn w t)) with
      | None =>
          strings.Map_write mapping c
            ++ flat_map (strings.Map_write mapping) (runes (skipn w t)) = t
      | Some (b, rest) =>
          b ++ flat_map (strings.Map_write mapping) (runes rest)
          = pre ++ strings.Map_write mapping c
              ++ flat_map (strings.Map_write mapping) (runes (skipn w t))
      end).
    { intros Hfix.
      destruct (strings.Map_first mapping (pre ++ t)
                  (range_from fuel (length pre + w) (skipn w t)))
        as [[b rest] |].
      - rewrite IH, Hfix, <- app_assoc. reflexivity.
      - rewrite IH, Hfix. apply firstn_skipn. }
    assert (Hstop :
      (firstn (length pre) (pre ++ t)
         ++ (if mapping c >=? 0 then utf8.AppendRune (mapping c) else []))
        ++ flat_map (strings.Map_write mapping)
             (runes (skipn (Z.to_nat (Z.of_nat (length pre) + Z.of_nat w))
                           (pre ++ t)))
      = pre ++ strings.Map_write mapping c
          ++ flat_map (strings.Map_write mapping) (runes (skipn w t))).
    { rewrite firstn_app, firstn_all, Nat.sub_diag. cbn [firstn].
      rewrite app_nil_r, <- app_assoc, <- Map_write_enc.
      replace (Z.to_nat (Z.of_nat (length pre) + Z.of_nat w))
        with (length pre + w)%nat by lia.
      rewrite skipn_app, skipn_all2 by lia.
      replace (length pre + w - length pre)%nat with w by lia.
      reflexivity. }
    cbn [strings.Map_first].
    destruct ((mapping c =? c) && negb (c =? utf8.RuneError)) eqn:Hkeep.
    + apply andb_true_iff in Hkeep. destruct Hkeep as [Hfix Hnre].
      apply Z.eqb_eq in Hfix. apply negb_true_iff, Z.eqb_neq in Hnre.
      apply Hcont. eapply Map_write_fixed; eauto.
    + destruct (c =? utf8.RuneError) eqn:Hre.
      * rewrite skipn_app, skipn_all, Nat.sub_diag. cbn [skipn app].
        rewrite D.
        destruct (negb (Z.of_nat w =? 1) && (mapping c =? c)) eqn:Hcnt.
        -- apply andb_true_iff in Hcnt. destruct Hcnt as [Hw1 Hfix].
           apply Z.eqb_eq in Hfix. apply negb_true_iff, Z.eqb_neq in Hw1.
           apply Hcont. eapply Map_write_fixed; eauto. right. lia.
        -- exact Hstop.
      * apply Z.eqb_neq in Hre.
        destruct (DecodeRune_valid t c w Hne D) as [[-> _] | (L & _ & _)];
          [congruence |].
        rewrite L. exact Hstop.
Qed.

Theorem Map_runes (s : gostring) :
  strings.Map mapping s = flat_map (strings.Map_write mapping) (runes s).
Proof.
  unfold strings.Map, range_string.
  pose proof (Map_first_spec (length s) [] s (Nat.le_refl _)) as H.
  cbn [app length] in H.
  destruct (strings.Map_first mapping s (range_from (length s) 0 s))
    as [[b rest] |].
  - rewrite flat_map_snd. exact H.
  - symmetry. exact H.
Qed.

End MapFacts.



Lemma ToLower_scan_true (s : gostring) (acc h : bool) :
  strings.ToLower_scan s acc = (true, h) ->
  Forall low s /\ h = acc || existsb upper s.
Proof.
  revert acc. induction s as [| c s IH]; intros acc H; cbn in H.
  - injection H as <-. split; [constructor | now rewrite orb_false_r].
  - destruct (byteZ c >=? utf8.RuneSelf) eqn:Hc; [discriminate |].
    apply IH in H. destruct H as [Hs ->]. split.
    + constructor; [| exact Hs]. unfold low.
      unfold utf8.RuneSelf in Hc. rewrite Z.geb_leb in Hc.
      apply Z.leb_gt in Hc. exact Hc.
    + cbn [existsb]. unfold upper. now rewrite orb_assoc.
Qed.

Lemma runes_low (s : gostring) : Forall low s -> runes s = map byteZ s.
Proof.
  induction 1 as [| b s Hb Hs IH]; [reflexivity |].
  rewrite runes_ascii_cons by exact Hb. cbn [map]. now rewrite IH.
Qed.

Section ToLowerFacts.

Variable To_LowerCase : rune -> rune.

Let lower := unicode.ToLower To_LowerCase.

Lemma Map_write_low (b : byte) :
  low b -> strings.Map_write lower (byteZ b) = [strings.ToLower_ascii b].
Proof.
  unfold low. intros Hb. pose proof (byteZ_range b) as R.
  unfold strings.Map_write, strings.ToLower_ascii, lower, unicode.ToLower.
  replace (byteZ b <=? unicode.MaxASCII) with true
    by (symmetry; apply Z.leb_le; unfold unicode.MaxASCII; lia).
  destruct ((65 <=? byteZ b) && (byteZ b <=? 90)) eqn:Hup.
  - apply andb_true_iff in Hup. destruct Hup as [H1 H2].
    apply Z.leb_le in H1, H2.
    replace (byteZ b + (97 - 65) >=? 0) with true
      by (symmetry; apply Z.geb_le; lia).
    replace (byteZ b + (97 - 65) <? utf8.RuneSelf) with true
      by (symmetry; apply Z.ltb_lt; unfold utf8.RuneSelf; lia).
    reflexivity.
  - replace (byteZ b >=? 0) with true by (symmetry; apply Z.geb_le; lia).
    replace (byteZ b <? utf8.RuneSelf) with true
      by (symmetry; apply Z.ltb_lt; unfold utf8.RuneSelf; lia).
    now rewrite byte_of_byteZ.
Qed.

Lemma flat_map_low (s : gostring) :
  Forall low s ->
  flat_map (strings.Map_write lower) (map byteZ s)
  = map strings.ToLower_ascii s.
Proof.
  induction 1 as [| b s Hb Hs IH]; [reflexivity |].
  cbn [map flat_map]. rewrite Map_write_low by exact Hb.
  now rewrite IH.
Qed.

Lemma ToLower_ascii_id (s : gostring) :
  existsb upper s = false -> map strings.ToLower_ascii s = s.
Proof.
  induction s as [| b s IH]; [reflexivity |].
  cbn [existsb map]. intros H. apply orb_false_iff in H. destruct H as [Hb Hs].
  rewrite IH by exact Hs. unfold strings.ToLower_ascii.
  unfold upper in Hb. now rewrite Hb.
Qed.

(** [ToLower] maps the runes of its argument one by one, on the ASCII
    path as on the general one. *)
Theorem ToLower_runes (s : gostring) :
  strings.ToLower To_LowerCase s
  = flat_map (strings.Map_write lower) (runes s).
Proof.
  unfold strings.ToLower.
  destruct (strings.ToLower_scan s false) as [isASCII hasUpper] eqn:Hscan.
  destruct isASCII.
  - apply ToLower_scan_true in Hscan. destruct Hscan as [Hlow ->].
    cbn [orb]. rewrite runes_low, flat_map_low by exact Hlow.
    destruct (existsb upper s) eqn:Hup; cbn [negb]; [reflexivity |].
    symmetry. now apply ToLower_ascii_id.
  - apply Map_runes.
Qed.

Lemma space_low : byteZ space < 0x80.
Proof. vm_compute. reflexivity. Qed.

Lemma ToLower_app_space (t u : gostring) :
  strings.ToLower To_LowerCase (t ++ space :: u)
  = strings.ToLower To_LowerCase t ++ space :: strings.ToLower To_LowerCase u.
Proof.
  rewrite !ToLower_runes, runes_app_ascii by exact space_low.
  rewrite flat_map_app. cbn [flat_map].
  rewrite (Map_write_low space) by exact space_low. reflexivity.
Qed.

End ToLowerFacts.


(** ** [strings.Split] and [strings.Join] *)

Section SplitJoin.

Variable sep : byte.

Lemma Split_not_nil (s : gostring) : strings.Split s sep <> [].
Proof.
  destruct s as [| c s]; cbn [strings.Split]; [discriminate |].
  destruct (Ascii.eqb c sep); [discriminate |].
  destruct (strings.Split s sep); discriminate.
Qed.

Lemma Split_without (t : gostring) :
  ~ In sep t -> strings.Split t sep = [t].
Proof.
  induction t as [| c t IH]; intros Hnot; [reflexivity |].
  cbn [strings.Split].
  destruct (Ascii.eqb_spec c sep) as [-> | Hc].
  - exfalso. apply Hnot. now left.
  - rewrite IH; [reflexivity |]. intros Hin. apply Hnot. now right.
Qed.

Lemma Split_app (t u : gostring) :
  ~ In sep t ->
  strings.Split (t ++ sep :: u) sep = t :: strings.Split u sep.
Proof.
  induction t as [| c t IH]; intros Hnot.
  - cbn [app strings.Split]. now rewrite Ascii.eqb_refl.
  - cbn [app strings.Split].
    destruct (Ascii.eqb_spec c sep) as [-> | Hc].
    + exfalso. apply Hnot. now left.
    + rewrite IH; [reflexivity |]. intros Hin. apply Hnot. now right.
Qed.

(** No piece contains the separator. *)
Lemma Split_pieces (s : gostring) :
  Forall (fun w => ~ In sep w) (strings.Split s sep).
Proof.
  induction s as [| c s IH]; cbn [strings.Split].
  - constructor; [intros [] | constructor].
  - destruct (Ascii.eqb_spec c sep) as [-> | Hc].
    + constructor; [intros [] | exact IH].
    + destruct (strings.Split s sep) as [| w ws].
      * constructor; [| constructor]. intros [H | []]. congruence.
      * inversion IH as [| ? ? Hw Hws]; subst.
        constructor; [| exact Hws].
        intros [H | H]; [congruence | now apply Hw].
Qed.

(** Joining the pieces with the separator gives the string back: runs of
    separators and empty pieces included. *)
Theorem Join_Split (s : gostring) :
  strings.Join (strings.Split s sep) [sep] = s.
Proof.
  induction s as [| c s IH]; [reflexivity |].
  cbn [strings.Split].
  destruct (Ascii.eqb_spec c sep) as [-> | Hc].
  - pose proof (Split_not_nil s) as Hne.
    cbn [strings.Join]. destruct (strings.Split s sep) as [| w ws] eqn:E;
      [congruence |].
    cbn [app]. f_equal. exact IH.
  - destruct (strings.Split s sep) as [| w ws] eqn:E.
    + exfalso. now apply (Split_not_nil s).
    + cbn [strings.Join] in *. destruct ws as [| w' ws].
      * now rewrite IH.
      * rewrite <- app_comm_cons. now rewrite IH.
Qed.

Theorem Split_Join (ws : list gostring) :
  ws <> [] -> Forall (fun w => ~ In sep w) ws ->
  strings.Split (strings.Join ws [sep]) sep = ws.
Proof.
  induction ws as [| w ws IH]; intros Hne Hall; [congruence |].
  inversion Hall as [| ? ? Hw Hws]; subst.
  destruct ws as [| w' ws].
  - cbn [strings.Join]. now apply Split_without.
  - change (strings.Join (w :: w' :: ws) [sep])
      with (w ++ [sep] ++ strings.Join (w' :: ws) [sep]).
    cbn [app]. rewrite Split_app by exact Hw.
    f_equal. apply IH; [discriminate | exact Hws].
Qed.

End SplitJoin.

(** ** Lower case and the words of a string *)

Section LowerWords.

Variable To_LowerCase : rune -> rune.

(** The case table maps a code point above ASCII to a rune, and never to
    the space. *)
Hypothesis LowerCase_ok : LowerCase_no_space To_LowerCase.

Let lower := unicode.ToLower To_LowerCase.

Lemma high_not_space (b : byte) : high b -> b <> space.
Proof.
  unfold high. intros H ->. pose proof space_low. lia.
Qed.

Lemma Map_write_no_space (c : rune) :
  0 <= c <= utf8.MaxRune -> c <> 32 ->
  ~ In space (strings.Map_write lower c).
Proof.
  intros Hc Hne. rewrite Map_write_enc.
  assert (Hr : lower c <> 32 /\ -2147483648 <= lower c <= 2147483647).
  { unfold lower, unicode.ToLower.
    destruct (c <=? unicode.MaxASCII) eqn:Hlow.
    - apply Z.leb_le in Hlow. unfold unicode.MaxASCII in Hlow.
      destruct ((65 <=? c) && (c <=? 90)) eqn:Hup.
      + apply andb_true_iff in Hup. destruct Hup as [H1 H2].
        apply Z.leb_le in H1, H2. lia.
      + lia.
    - apply Z.leb_gt in Hlow.
      destruct (LowerCase_ok c) as [Hint Hsp]; [lia |]. lia. }
  destruct Hr as [Hsp Hint].
  destruct (lower c >=? 0) eqn:Hge; [| intros []].
  apply Z.geb_le in Hge.
  destruct (Z_le_gt_dec (lower c) 0x7F) as [Hsmall | Hbig].
  - rewrite AppendRune1 by lia. intros [H | []].
    apply Hsp. apply (f_equal byteZ) in H.
    rewrite byteZ_byte_of, Z.mod_small in H by lia. exact H.
  - intros Hin.
    assert (Hhigh : Forall high (utf8.AppendRune (lower c))).
    { apply AppendRune_high. unfold uint32. rewrite Z.mod_small; lia. }
    rewrite Forall_forall in Hhigh.
    now apply (high_not_space space (Hhigh _ Hin)).
Qed.

(** The rune 32 is decoded from the byte 32 only. *)
Lemma runes_space (t : gostring) : In 32 (runes t) -> In space t.
Proof.
  remember (length t) as n eqn:Hn. revert t Hn.
  induction n as [n IH] using lt_wf_ind. intros t Hn Hin.
  destruct t as [| b t']; [destruct Hin |].
  assert (Hne : b :: t' <> []) by discriminate.
  destruct (utf8.DecodeRuneInString (b :: t')) as [c w] eqn:D.
  pose proof (DecodeRune_width _ _ _ Hne D) as Hw.
  rewrite (runes_cons _ _ _ Hne D) in Hin.
  destruct Hin as [Hc | Hin].
  - subst c. destruct (DecodeRune_low _ _ _ Hne D) as (_ & t'' & E); [lia |].
    rewrite E. left. reflexivity.
  - assert (In space (skipn w (b :: t'))) as Hs.
    { eapply IH; [| reflexivity | exact Hin].
      subst n. rewrite length_skipn. lia. }
    rewrite <- (firstn_skipn w (b :: t')). apply in_or_app. now right.
Qed.

Lemma runes_range (t : gostring) :
  Forall (fun c => 0 <= c <= utf8.MaxRune) (runes t).
Proof.
  remember (length t) as n eqn:Hn. revert t Hn.
  induction n as [n IH] using lt_wf_ind. intros t Hn.
  destruct t as [| b t']; [constructor |].
  assert (Hne : b :: t' <> []) by discriminate.
  destruct (utf8.DecodeRuneInString (b :: t')) as [c w] eqn:D.
  pose proof (DecodeRune_width _ _ _ Hne D) as Hw.
  rewrite (runes_cons _ _ _ Hne D). constructor.
  - eapply DecodeRune_range; eauto.
  - eapply IH; [| reflexivity]. subst n. rewrite length_skipn. lia.
Qed.

Lemma ToLower_no_space (t : gostring) :
  ~ In space t -> ~ In space (strings.ToLower To_LowerCase t).
Proof.
  intros Hnot. rewrite ToLower_runes.
  intros Hin. apply in_flat_map in Hin. destruct Hin as (c & Hc & Hin).
  pose proof (runes_range t) as Hr. rewrite Forall_forall in Hr.
  apply (Map_write_no_space c); [now apply Hr | | exact Hin].
  intros ->. apply Hnot. now apply runes_space.
Qed.

Lemma ToLower_Join (ws : list gostring) :
  strings.ToLower To_LowerCase (strings.Join ws [space])
  = strings.Join (map (strings.ToLower To_LowerCase) ws) [space].
Proof.
  induction ws as [| w ws IH]; [reflexivity |].
  destruct ws as [| w' ws]; [reflexivity |].
  change (strings.Join (w :: w' :: ws) [space])
    with (w ++ [space] ++ strings.Join (w' :: ws) [space]).
  cbn [app]. rewrite ToLower_app_space, IH. reflexivity.
Qed.

(** Lower-casing the body and cutting it into words gives the lower-cased
    words of the body: [lowerWords] and [originalWords] line up. *)
Theorem Split_ToLower (s : gostring) :
  strings.Split (strings.ToLower To_LowerCase s) space
  = map (strings.ToLower To_LowerCase) (strings.Split s space).
Proof.
  rewrite <- (Join_Split space s) at 1.
  rewrite ToLower_Join. apply Split_Join.
  - pose proof (Split_not_nil space s).
    destruct (strings.Split s space) eqn:E; [congruence | discriminate].
  - apply Forall_map. eapply Forall_impl; [| apply Split_pieces].
    intros w Hw. now apply ToLower_no_space.
Qed.

End LowerWords.


(** * The loops of [processWords] *)

Lemma gostring_eqb_eq (a b : gostring) : gostring_eqb a b = true <-> a = b.
Proof.
  unfold gostring_eqb. destruct (list_eq_dec ascii_dec a b); split;
    congruence.
Qed.

Lemma is_banned_In (word : gostring) :
  is_banned word = true <-> In word banned_words.
Proof.
  unfold is_banned. rewrite existsb_exists. split.
  - intros (b & Hb & E). apply gostring_eqb_eq in E. now subst.
  - intros H. exists word. split; [exact H | now apply gostring_eqb_eq].
Qed.

Section Loops.

Variable Is_Punct : rune -> bool.

Lemma store_app (done rem : list gostring) (ow v : gostring) :
  store (done ++ ow :: rem) (length done) v = Some (done ++ v :: rem).
Proof.
  induction done as [| x done IH]; [reflexivity |].
  cbn [app length store]. now rewrite IH.
Qed.

Lemma store_twice (a a' : list gostring) (i : nat) (v : gostring) :
  store a i v = Some a' -> store a' i v = Some a'.
Proof.
  revert a' i. induction a as [| x a IH]; intros a' i H.
  - destruct i; discriminate.
  - destruct i as [| i]; cbn [store] in H.
    + injection H as <-. reflexivity.
    + destruct (store a i v) as [a'' |] eqn:E; [| discriminate].
      injection H as <-. cbn [store]. now rewrite (IH _ _ E).
Qed.

(** The inner loop: one store at most has an effect. *)
Lemma inner_loop_spec (banned : list gostring) (i : nat) (word : gostring)
  (ows : list gostring) (found : bool) :
  inner_loop Is_Punct i word banned (ows, found) =
  if existsb (fun b => gostring_eqb b word) banned
     && negb (hasPunctuation Is_Punct word)
  then match store ows i mask with
       | Some ows' => Some (ows', true)
       | None => None
       end
  else Some (ows, found).
Proof.
  revert ows found. induction banned as [| b banned IH]; intros ows found.
  - reflexivity.
  - cbn [inner_loop existsb]. unfold inner_body. cbn [fst].
    destruct (gostring_eqb b word) eqn:Eb; cbn [orb].
    + destruct (hasPunctuation Is_Punct word) eqn:Hp; cbn [negb andb].
      * rewrite IH, ?Hp. cbn [negb]. rewrite andb_false_r. reflexivity.
      * destruct (store ows i mask) as [ows' |] eqn:Es; [| reflexivity].
        rewrite IH, ?Hp. cbn [negb].
        rewrite andb_true_r, (store_twice _ _ _ _ Es).
        now destruct (existsb _ banned).
    + apply IH.
Qed.

Lemma outer_loop_clean (lws : list gostring) (i : nat) (st : loop_state) :
  Forall (fun lw => redacts Is_Punct lw = false) lws ->
  outer_loop Is_Punct i lws banned_words st = Some st.
Proof.
  intros H. revert i. induction H as [| lw lws Hlw _ IH]; intros i.
  - reflexivity.
  - cbn [outer_loop]. destruct st as [ows found].
    rewrite inner_loop_spec. fold (is_banned lw).
    fold (redacts Is_Punct lw). rewrite Hlw. apply IH.
Qed.


Lemma outer_loop_spec (lws rem done : list gostring) (found : bool) :
  length lws = length rem ->
  outer_loop Is_Punct (length done) lws banned_words (done ++ rem, found)
  = Some (done ++ map (redact_pair Is_Punct) (combine lws rem),
          found || existsb (redacts Is_Punct) lws).
Proof.
  revert rem done found.
  induction lws as [| lw lws IH]; intros rem done found Hlen.
  - destruct rem; [| discriminate]. cbn. now rewrite orb_false_r.
  - destruct rem as [| ow rem]; [discriminate |].
    injection Hlen as Hlen.
    cbn [outer_loop]. rewrite inner_loop_spec.
    fold (is_banned lw). fold (redacts Is_Punct lw).
    cbn [combine map existsb]. unfold redact_pair at 1. cbn [fst snd].
    destruct (redacts Is_Punct lw) eqn:Hlw.
    + rewrite store_app.
      replace (done ++ mask :: rem) with ((done ++ [mask]) ++ rem)
        by (now rewrite <- app_assoc).
      replace (S (length done)) with (length (done ++ [mask]))
        by (rewrite length_app; simpl; lia).
      rewrite IH by exact Hlen.
      rewrite <- app_assoc, orb_true_r. reflexivity.
    + replace (done ++ ow :: rem) with ((done ++ [ow]) ++ rem)
        by (now rewrite <- app_assoc).
      replace (S (length done)) with (length (done ++ [ow]))
        by (rewrite length_app; simpl; lia).
      rewrite IH by exact Hlen.
      rewrite <- app_assoc. reflexivity.
Qed.

Lemma combine_map_l (A B : Type) (f : A -> B) (l : list A) :
  combine (map f l) l = map (fun x => (f x, x)) l.
Proof.
  induction l as [| x l IH]; [reflexivity |].
  cbn [map combine]. now rewrite IH.
Qed.

Lemma existsb_map_comp (A B : Type) (f : B -> bool) (g : A -> B)
  (l : list A) :
  existsb f (map g l) = existsb (fun x => f (g x)) l.
Proof.
  induction l as [| x l IH]; [reflexivity |].
  cbn [map existsb]. now rewrite IH.
Qed.

Section WithTable.

Variable To_LowerCase : rune -> rune.
Hypothesis LowerCase_ok : LowerCase_no_space To_LowerCase.

(** [processWords] never panics; it replaces exactly the words whose
    lower-case form the classifier rejects, and reports whether there was
    one. *)
Theorem processWords_spec (input : gostring) :
  processWords Is_Punct To_LowerCase input =
  Some (strings.Join
          (map (redact_word Is_Punct To_LowerCase)
               (strings.Split input space)) [space],
        if existsb (fun t => redacts Is_Punct (strings.ToLower To_LowerCase t))
                   (strings.Split input space)
        then bad_word_error else None).
Proof.
  unfold processWords.
  rewrite (Split_ToLower To_LowerCase LowerCase_ok).
  pose proof (outer_loop_spec
                (map (strings.ToLower To_LowerCase) (strings.Split input space))
                (strings.Split input space) [] false
                (length_map _ _)) as H.
  cbn [app length orb] in H. rewrite H.
  rewrite combine_map_l, map_map, existsb_map_comp.
  unfold redact_pair, redact_word. cbn [fst snd].
  match goal with |- (if ?b then _ else _) = _ => destruct b end; reflexivity.
Qed.

End WithTable.

End Loops.



(** * The handler *)

Lemma send_json_fresh (code : Z) (dat : gostring) (w : ResponseWriter) :
  rw_status w = None ->
  rw_status (send_json code dat w) = Some code /\
  rw_body (send_json code dat w) = rw_body w ++ dat /\
  In (content_type, application_json) (rw_header (send_json code dat w)).
Proof.
  intros Hw. unfold send_json, Write, WriteHeader, Header_Set.
  rewrite Hw. cbn [rw_status rw_body rw_header].
  refine (conj eq_refl (conj eq_refl _)).
  induction (rw_header w) as [| [k v] h IH].
  - left. reflexivity.
  - cbn [header_set]. destruct (gostring_eqb k content_type).
    + left. reflexivity.
    + right. exact IH.
Qed.

(** The runes of a string are no more than its bytes. *)
Lemma RuneCount_le_len (s : gostring) : RuneCountInString s <= len s.
Proof.
  unfold RuneCountInString, len.
  rewrite <- (length_map snd). fold (runes s).
  apply inj_le.
  remember (length s) as n eqn:Hn. revert s Hn.
  induction n as [n IH] using lt_wf_ind. intros s Hn.
  destruct s as [| b s']; [simpl; lia |].
  assert (Hne : b :: s' <> []) by discriminate.
  destruct (utf8.DecodeRuneInString (b :: s')) as [c w] eqn:D.
  pose proof (DecodeRune_width _ _ _ Hne D) as Hw.
  rewrite (runes_cons _ _ _ Hne D). cbn [length].
  assert (Hl : (length (skipn w (b :: s')) < n)%nat)
    by (subst n; rewrite length_skipn; lia).
  specialize (IH _ Hl _ eq_refl). rewrite length_skipn in IH. subst n. lia.
Qed.

Section Handler.

Variable Is_Punct : rune -> bool.
Variable To_LowerCase : rune -> rune.
Variable json_Decode : gostring -> parameters * error.
Variable json_Marshal : jsonValue -> gostring * error.

Let handler := chirpHandler Is_Punct To_LowerCase json_Decode json_Marshal.


(** [json.Marshal] does not fail on a struct of one string field. *)
Hypothesis Marshal_ok : forall v, snd (json_Marshal v) = None.

Lemma chirpHandler_long (w : ResponseWriter) (r : Request) (sigma : World)
  (params : parameters) :
  json_Decode (req_Body r) = (params, None) ->
  140 < len (Body params) ->
  handler w r sigma
  = Some (send_json 400 (too_long_response json_Marshal) w, sigma).
Proof.
  intros Hd Hlen. unfold handler, chirpHandler. rewrite Hd.
  replace (len (Body params) >? 140) with true
    by (symmetry; apply Z.gtb_lt; lia).
  unfold too_long_response.
  pose proof (Marshal_ok (of_errorReturnVals
                            (mkerrorReturnVals (lit "Chirp is too long"))))
    as Hm.
  destruct (json_Marshal _) as [dat err]. cbn [snd fst] in *. subst err.
  reflexivity.
Qed.

Lemma chirpHandler_short (w : ResponseWriter) (r : Request) (sigma : World)
  (params : parameters) (out : gostring) (e : error) :
  json_Decode (req_Body r) = (params, None) ->
  len (Body params) <= 140 ->
  processWords Is_Punct To_LowerCase (Body params) = Some (out, e) ->
  handler w r sigma
  = Some (send_json 200 (cleaned_response json_Marshal out) w, sigma).
Proof.
  intros Hd Hlen Hp. unfold handler, chirpHandler. rewrite Hd.
  replace (len (Body params) >? 140) with false
    by (symmetry; rewrite Z.gtb_ltb; apply Z.ltb_ge; lia).
  rewrite Hp. unfold cleaned_response.
  pose proof (Marshal_ok (of_cleanedReturnVals (mkcleanedReturnVals out)))
    as Hm.
  destruct (json_Marshal _) as [dat err]. cbn [snd fst] in *. subst err.
  reflexivity.
Qed.

Lemma not_banned_not_redacted (word : gostring) :
  ~ In word banned_words -> redacts Is_Punct word = false.
Proof.
  intros H. unfold redacts.
  destruct (is_banned word) eqn:E; [| reflexivity].
  apply is_banned_In in E. contradiction.
Qed.

(** C1.  A body none of whose lower-case words is a banned term comes back
    from [processWords] byte for byte, runs of spaces and empty words
    included, with a [nil] error; when its length is at most 140 the
    handler answers 200 with that same body. *)
Theorem clean_body_unchanged (b : gostring) :
  (forall word,
     In word (strings.Split (strings.ToLower To_LowerCase b) space) ->
     ~ In word banned_words) ->
  processWords Is_Punct To_LowerCase b = Some (b, None) /\
  (forall w r sigma,
     json_Decode (req_Body r) = (mkparameters b, None) ->
     len b <= 140 ->
     handler w r sigma
     = Some (send_json 200 (cleaned_response json_Marshal b) w, sigma)).
Proof.
  intros Hclean.
  assert (Hp : processWords Is_Punct To_LowerCase b = Some (b, None)).
  { unfold processWords. rewrite outer_loop_clean.
    - now rewrite Join_Split.
    - apply Forall_forall. intros word Hin.
      apply not_banned_not_redacted. now apply Hclean. }
  split; [exact Hp |].
  intros w r sigma Hd Hlen.
  eapply chirpHandler_short; eauto.
Qed.

(** C2, as the code has it.  The handler compares [len(params.Body)], the
    number of BYTES of the body, with 140.  Above 140 bytes it answers 400
    with the marshalled [errorReturnVals] of "Chirp is too long", whatever
    the words of the body are; a body of more than 140 characters is one
    of these.  At 140 bytes or less the response is never the 400 one. *)
Theorem too_long_is_counted_in_bytes (w : ResponseWriter) (r : Request)
  (sigma : World) (params : parameters) :
  json_Decode (req_Body r) = (params, None) ->
  (140 < len (Body params) ->
   handler w r sigma
   = Some (send_json 400 (too_long_response json_Marshal) w, sigma) /\
   (rw_status w = None ->
    rw_status (send_json 400 (too_long_response json_Marshal) w)
    = Some 400 /\
    rw_body (send_json 400 (too_long_response json_Marshal) w)
    = rw_body w ++ too_long_response json_Marshal)) /\
  (140 < RuneCountInString (Body params) -> 140 < len (Body params)) /\
  (len (Body params) <= 140 ->
   forall w' sigma',
     handler w r sigma = Some (w', sigma') ->
     rw_status w = None -> rw_status w' <> Some 400).
Proof.
  intros Hd. split; [| split].
  - intros Hlen. split; [eapply chirpHandler_long; eauto |].
    intros Hw.
    destruct (send_json_fresh 400 (too_long_response json_Marshal) w Hw)
      as (H1 & H2 & _).
    now split.
  - pose proof (RuneCount_le_len (Body params)). lia.
  - intros Hlen w' sigma' Hrun Hw.
    unfold handler, chirpHandler in Hrun. rewrite Hd in Hrun.
    replace (len (Body params) >? 140) with false in Hrun
      by (symmetry; rewrite Z.gtb_ltb; apply Z.ltb_ge; lia).
    destruct (processWords Is_Punct To_LowerCase (Body params))
      as [[out e] |]; [| discriminate].
    pose proof (Marshal_ok (of_cleanedReturnVals (mkcleanedReturnVals out)))
      as Hm.
    destruct (json_Marshal _) as [dat err]. cbn [snd] in Hm. subst err.
    injection Hrun as <- _.
    destruct (send_json_fresh 200 dat w Hw) as (Hs & _).
    unfold send_json in Hs. rewrite Hs. discriminate.
Qed.

Hypothesis LowerCase_ok : LowerCase_no_space To_LowerCase.

(** C3.  On a body that passes the length check [processWords] returns a
    body and an error value, the error value being the flag; the handler
    answers 200 with the cleaned body in both cases. *)
Theorem flagged_is_not_a_failure (w : ResponseWriter) (r : Request)
  (sigma : World) (params : parameters) :
  json_Decode (req_Body r) = (params, None) ->
  len (Body params) <= 140 ->
  exists out flagged,
    processWords Is_Punct To_LowerCase (Body params) = Some (out, flagged) /\
    out = strings.Join (map (redact_word Is_Punct To_LowerCase)
                            (strings.Split (Body params) space)) [space] /\
    handler w r sigma
    = Some (send_json 200 (cleaned_response json_Marshal out) w, sigma) /\
    (rw_status w = None ->
     rw_status (send_json 200 (cleaned_response json_Marshal out) w)
     = Some 200 /\
     rw_body (send_json 200 (cleaned_response json_Marshal out) w)
     = rw_body w ++ cleaned_response json_Marshal out).
Proof.
  intros Hd Hlen.
  pose proof (processWords_spec Is_Punct To_LowerCase LowerCase_ok
                (Body params)) as Hp.
  eexists. eexists. split; [exact Hp |]. split; [reflexivity |]. split.
  - eapply chirpHandler_short; eauto.
  - intros Hw. destruct (send_json_fresh 200 (cleaned_response json_Marshal
      (strings.Join (map (redact_word Is_Punct To_LowerCase)
                         (strings.Split (Body params) space)) [space])) w Hw)
      as (H1 & H2 & _). now split.
Qed.

End Handler.


(** * The classifier *)

Lemma existsb_pointwise (A : Type) (f g : A -> bool) (l : list A) :
  (forall x, f x = g x) -> existsb f l = existsb g l.
Proof.
  intros H. induction l as [| x l IH]; [reflexivity |].
  cbn [existsb]. now rewrite H, IH.
Qed.

Lemma banned_words_letters (word : gostring) :
  In word banned_words -> Forall lower_letter word.
Proof.
  unfold banned_words, lower_letter.
  intros [<- | [<- | [<- | []]]];
    repeat constructor; vm_compute; discriminate.
Qed.

Lemma banned_words_length (word : gostring) :
  In word banned_words -> (6 <= length word)%nat.
Proof.
  unfold banned_words.
  intros [<- | [<- | [<- | []]]]; vm_compute; lia.
Qed.

Lemma AppendRune_not_nil (r : rune) : utf8.AppendRune r <> [].
Proof.
  unfold utf8.AppendRune, utf8.appendRuneNonASCII, utf8.encode3.
  repeat match goal with
         | |- context [if ?b then _ else _] => destruct b
         end; discriminate.
Qed.

Lemma latin1_pP_not_letter (c : Z) :
  unicode.latin1_pP c = true ->
  ~ (65 <= c <= 90) /\ ~ (97 <= c <= 122).
Proof.
  unfold unicode.latin1_pP. intros H.
  repeat match type of H with
         | (_ || _) = true => apply orb_true_iff in H; destruct H as [H | H]
         end;
  repeat match goal with
         | H : (_ && _) = true |- _ => apply andb_true_iff in H; destruct H
         end; boolZ; lia.
Qed.

Section Classifier.

Variable Is_Punct : rune -> bool.

Lemma hasPunctuation_loop_exists (its : list (nat * rune)) :
  hasPunctuation_loop Is_Punct its
  = existsb (unicode.IsPunct Is_Punct) (map snd its).
Proof.
  induction its as [| [i r] its IH]; [reflexivity |].
  cbn [hasPunctuation_loop map snd existsb].
  destruct (unicode.IsPunct Is_Punct r); [reflexivity | exact IH].
Qed.

Lemma hasPunctuation_runes (s : gostring) :
  hasPunctuation Is_Punct s = existsb (unicode.IsPunct Is_Punct) (runes s).
Proof. apply hasPunctuation_loop_exists. Qed.

(** No banned term has a punctuation character: the answer comes from the
    Latin-1 part of [IsPunct], whatever the range table holds. *)
Lemma banned_no_punct (word : gostring) :
  In word banned_words -> hasPunctuation Is_Punct word = false.
Proof.
  unfold banned_words.
  intros [<- | [<- | [<- | []]]]; reflexivity.
Qed.

Lemma redacts_is_banned (word : gostring) :
  redacts Is_Punct word = is_banned word.
Proof.
  unfold redacts. destruct (is_banned word) eqn:E; [| reflexivity].
  apply is_banned_In in E. now rewrite banned_no_punct.
Qed.

Lemma inner_loop_noguard_eq (banned : list gostring) (i : nat)
  (word : gostring) (st : loop_state) :
  Forall (fun b => hasPunctuation Is_Punct b = false) banned ->
  inner_loop Is_Punct i word banned st = inner_loop_noguard i word banned st.
Proof.
  intros H. revert st. induction H as [| b banned Hb _ IH]; intros st.
  - reflexivity.
  - cbn [inner_loop inner_loop_noguard].
    assert (E : inner_body Is_Punct i word b st
                = inner_body_noguard i word b st).
    { unfold inner_body, inner_body_noguard.
      destruct (gostring_eqb b word) eqn:Eb; [| reflexivity].
      apply gostring_eqb_eq in Eb. subst word. now rewrite Hb. }
    rewrite E. destruct (inner_body_noguard i word b st); [apply IH |].
    reflexivity.
Qed.

Lemma outer_loop_noguard_eq (lws : list gostring) (i : nat) (st : loop_state) :
  outer_loop Is_Punct i lws banned_words st
  = outer_loop_noguard i lws banned_words st.
Proof.
  revert i st. induction lws as [| lw lws IH]; intros i st; [reflexivity |].
  cbn [outer_loop outer_loop_noguard].
  rewrite inner_loop_noguard_eq.
  - destruct (inner_loop_noguard i lw banned_words st); [apply IH |].
    reflexivity.
  - apply Forall_forall. intros b Hb. now apply banned_no_punct.
Qed.

Section Tables.

Variable To_LowerCase : rune -> rune.

(** C9.  The test of [hasPunctuation] under a successful comparison is
    always passed: the word equals a banned term, and no banned term has a
    punctuation character.  [processWords] computes what it would compute
    without the test. *)
Theorem punctuation_guard_is_idle :
  (forall word, In word banned_words ->
     hasPunctuation Is_Punct word = false) /\
  (forall word b,
     In b banned_words -> gostring_eqb b word = true ->
     hasPunctuation Is_Punct word = false) /\
  (forall i word b st,
     In b banned_words ->
     inner_body Is_Punct i word b st = inner_body_noguard i word b st) /\
  (forall input,
     processWords Is_Punct To_LowerCase input
     = processWords_noguard To_LowerCase input).
Proof.
  split; [| split; [| split]].
  - apply banned_no_punct.
  - intros word b Hb Eb. apply gostring_eqb_eq in Eb. subst word.
    now apply banned_no_punct.
  - intros i word b st Hb. unfold inner_body, inner_body_noguard.
    destruct (gostring_eqb b word) eqn:Eb; [| reflexivity].
    apply gostring_eqb_eq in Eb. subst word.
    now rewrite banned_no_punct.
  - intros input. unfold processWords, processWords_noguard.
    rewrite outer_loop_noguard_eq. reflexivity.
Qed.

Let lower := unicode.ToLower To_LowerCase.

Lemma ToLower_contains (t : gostring) (c : rune) (b : byte) :
  In c (runes t) -> In b (strings.Map_write lower c) ->
  In b (strings.ToLower To_LowerCase t).
Proof.
  intros Hc Hb. rewrite ToLower_runes. apply in_flat_map. now exists c.
Qed.

Hypothesis Punct_ok : Punct_caseless Is_Punct To_LowerCase.

(** A word with a punctuation character does not become a banned term in
    lower case. *)
Lemma punct_not_banned (t : gostring) :
  hasPunctuation Is_Punct t = true ->
  ~ In (strings.ToLower To_LowerCase t) banned_words.
Proof.
  intros Hp Hin. rewrite hasPunctuation_runes in Hp.
  apply existsb_exists in Hp. destruct Hp as (c & Hc & Hpc).
  pose proof (banned_words_letters _ Hin) as Hletters.
  rewrite Forall_forall in Hletters.
  pose proof (runes_range t) as Hr. rewrite Forall_forall in Hr.
  specialize (Hr c Hc).
  destruct (Z_le_gt_dec c 0x7F) as [Hlow | Hhigh].
  - (* an ASCII punctuation character stays in the word *)
    assert (Hpp : unicode.latin1_pP c = true).
    { unfold unicode.IsPunct, uint32 in Hpc.
      rewrite (Z.mod_small c 4294967296) in Hpc by lia.
      replace (c <=? unicode.MaxLatin1) with true in Hpc
        by (symmetry; apply Z.leb_le; unfold unicode.MaxLatin1; lia).
      rewrite Z.mod_small in Hpc by lia. exact Hpc. }
    apply latin1_pP_not_letter in Hpp. destruct Hpp as [Hup Hlo].
    assert (Hw : strings.Map_write lower c = [byte_of c]).
    { unfold strings.Map_write, lower, unicode.ToLower.
      replace (c <=? unicode.MaxASCII) with true
        by (symmetry; apply Z.leb_le; unfold unicode.MaxASCII; lia).
      replace ((65 <=? c) && (c <=? 90)) with false.
      2:{ symmetry. apply andb_false_iff. rewrite !Z.leb_gt. lia. }
      replace (c >=? 0) with true by (symmetry; apply Z.geb_le; lia).
      replace (c <? utf8.RuneSelf) with true
        by (symmetry; apply Z.ltb_lt; unfold utf8.RuneSelf; lia).
      reflexivity. }
    assert (Hb : In (byte_of c) (strings.ToLower To_LowerCase t)).
    { apply (ToLower_contains t c); [exact Hc |]. rewrite Hw. now left. }
    apply Hletters in Hb. unfold lower_letter in Hb.
    rewrite byteZ_byte_of, Z.mod_small in Hb by lia. lia.
  - (* a punctuation character above ASCII is written back as it is *)
    assert (Hfix : lower c = c).
    { unfold lower, unicode.ToLower.
      replace (c <=? unicode.MaxASCII) with false
        by (symmetry; apply Z.leb_gt; unfold unicode.MaxASCII; lia).
      apply Punct_ok; [unfold unicode.MaxASCII; lia | exact Hpc]. }
    assert (Hw : strings.Map_write lower c = utf8.AppendRune c).
    { rewrite Map_write_enc, Hfix.
      replace (c >=? 0) with true by (symmetry; apply Z.geb_le; lia).
      reflexivity. }
    pose proof (AppendRune_not_nil c) as Hne.
    assert (Hhi : Forall high (utf8.AppendRune c)).
    { apply AppendRune_high. unfold uint32, utf8.MaxRune in *.
      rewrite Z.mod_small; lia. }
    destruct (utf8.AppendRune c) as [| b bs] eqn:E; [congruence |].
    inversion Hhi as [| ? ? Hb _]; subst.
    assert (Hin' : In b (strings.ToLower To_LowerCase t)).
    { apply (ToLower_contains t c); [exact Hc |]. rewrite Hw. now left. }
    apply Hletters in Hin'. unfold lower_letter in Hin'. unfold high in Hb.
    lia.
Qed.

Lemma punct_word_kept (t : gostring) :
  hasPunctuation Is_Punct t = true ->
  redact_word Is_Punct To_LowerCase t = t.
Proof.
  intros Hp. unfold redact_word, redacts.
  destruct (is_banned (strings.ToLower To_LowerCase t)) eqn:E;
    [| reflexivity].
  apply is_banned_In in E. now apply punct_not_banned in E.
Qed.

Hypothesis LowerCase_ok : LowerCase_no_space To_LowerCase.

Lemma mask_no_space : ~ In space mask.
Proof.
  intros H. vm_compute in H. intuition discriminate.
Qed.

(** The words of the result are the words of the body, redacted one by
    one. *)
Lemma Split_processWords (b out : gostring) (e : error) :
  processWords Is_Punct To_LowerCase b = Some (out, e) ->
  strings.Split out space
  = map (redact_word Is_Punct To_LowerCase) (strings.Split b space).
Proof.
  rewrite (processWords_spec Is_Punct To_LowerCase LowerCase_ok).
  intros H. injection H as <- _.
  apply Split_Join.
  - pose proof (Split_not_nil space b).
    destruct (strings.Split b space) eqn:E; [congruence | discriminate].
  - apply Forall_map. eapply Forall_impl; [| apply Split_pieces].
    intros w Hw. unfold redact_word.
    destruct (redacts Is_Punct _); [apply mask_no_space | exact Hw].
Qed.

(** C4.  The classifier never takes a word with a punctuation character
    for a banned one, and such a word of the body is in the result as it
    was. *)
Theorem punctuated_word_is_kept :
  (forall word,
     hasPunctuation Is_Punct word = true -> redacts Is_Punct word = false) /\
  (forall t,
     hasPunctuation Is_Punct t = true ->
     redacts Is_Punct (strings.ToLower To_LowerCase t) = false) /\
  (forall b out e i t,
     processWords Is_Punct To_LowerCase b = Some (out, e) ->
     nth_error (strings.Split b space) i = Some t ->
     hasPunctuation Is_Punct t = true ->
     nth_error (strings.Split out space) i = Some t) /\
  processWords Is_Punct To_LowerCase (lit "kerfuffle!")
  = Some (lit "kerfuffle!", None) /\
  processWords Is_Punct To_LowerCase (lit "kerfuffle")
  = Some (lit "****", bad_word_error).
Proof.
  split; [| split; [| split; [| split]]].
  - intros word Hp. unfold redacts. rewrite Hp. apply andb_false_r.
  - intros t Hp. unfold redacts.
    destruct (is_banned (strings.ToLower To_LowerCase t)) eqn:E;
      [| reflexivity].
    apply is_banned_In in E. now apply punct_not_banned in E.
  - intros b out e i t Hrun Hi Hp.
    rewrite (Split_processWords _ _ _ Hrun).
    rewrite nth_error_map, Hi. cbn [option_map].
    now rewrite punct_word_kept.
  - reflexivity.
  - reflexivity.
Qed.

(** C5.  A word is replaced exactly when its lower-case form is equal to a
    banned term; the other words keep their bytes, case included. *)
Theorem match_is_on_lower_case (b : gostring) :
  processWords Is_Punct To_LowerCase b
  = Some (strings.Join
            (map (fun t => if is_banned (strings.ToLower To_LowerCase t)
                           then mask else t)
                 (strings.Split b space)) [space],
          if existsb (fun t => is_banned (strings.ToLower To_LowerCase t))
                     (strings.Split b space)
          then bad_word_error else None) /\
  processWords Is_Punct To_LowerCase (lit "KerFuffle")
  = Some (lit "****", bad_word_error).
Proof.
  split; [| reflexivity].
  rewrite (processWords_spec Is_Punct To_LowerCase LowerCase_ok).
  unfold redact_word. f_equal. f_equal.
  - f_equal. apply map_ext. intros t. now rewrite redacts_is_banned.
  - replace (existsb (fun t => redacts Is_Punct
                                 (strings.ToLower To_LowerCase t))
               (strings.Split b space))
      with (existsb (fun t => is_banned (strings.ToLower To_LowerCase t))
               (strings.Split b space)); [reflexivity |].
    apply existsb_pointwise. intros t. now rewrite redacts_is_banned.
Qed.

End Tables.

End Classifier.


(** * Running [processWords] on its own result *)

Lemma Join_length_le (l1 l2 : list gostring) (sep : gostring) :
  Forall2 (fun a b => (length a <= length b)%nat) l1 l2 ->
  (length (strings.Join l1 sep) <= length (strings.Join l2 sep))%nat.
Proof.
  induction 1 as [| a b l1 l2 Hab Hl IH]; [reflexivity |].
  cbn [strings.Join]. destruct Hl as [| a' b' l1 l2 Hab' Hl].
  - exact Hab.
  - rewrite !length_app. lia.
Qed.

Lemma Forall2_map_l (A : Type) (R : A -> A -> Prop) (f : A -> A)
  (l : list A) :
  (forall x, R (f x) x) -> Forall2 R (map f l) l.
Proof.
  intros H. induction l as [| x l IH]; constructor; auto.
Qed.

Section Idempotence.

Variable Is_Punct : rune -> bool.
Variable To_LowerCase : rune -> rune.
Hypothesis LowerCase_ok : LowerCase_no_space To_LowerCase.

Let lower := unicode.ToLower To_LowerCase.

(** What one rune becomes: nothing, one byte below [RuneSelf], or bytes
    that are all above. *)
Lemma Map_write_shape (c : rune) :
  0 <= c <= utf8.MaxRune ->
  (length (strings.Map_write lower c) <= 1)%nat \/
  exists b, In b (strings.Map_write lower c) /\ high b.
Proof.
  intros Hc. rewrite Map_write_enc.
  assert (Hint : -2147483648 <= lower c <= 2147483647).
  { unfold lower, unicode.ToLower.
    destruct (c <=? unicode.MaxASCII) eqn:Hlow.
    - apply Z.leb_le in Hlow. unfold unicode.MaxASCII in Hlow.
      destruct ((65 <=? c) && (c <=? 90)); lia.
    - apply Z.leb_gt in Hlow.
      destruct (LowerCase_ok c) as [Hint _]; [lia | exact Hint]. }
  destruct (lower c >=? 0) eqn:Hge; [| left; simpl; lia].
  apply Z.geb_le in Hge.
  destruct (Z_le_gt_dec (lower c) 0x7F) as [Hsmall | Hbig].
  - left. rewrite AppendRune1 by lia. simpl. lia.
  - right.
    assert (Hhi : Forall high (utf8.AppendRune (lower c))).
    { apply AppendRune_high. unfold uint32. rewrite Z.mod_small; lia. }
    pose proof (AppendRune_not_nil (lower c)) as Hne.
    destruct (utf8.AppendRune (lower c)) as [| b bs]; [congruence |].
    inversion Hhi; subst. exists b. split; [now left | assumption].
Qed.

Lemma flat_map_low_length (rs : list rune) :
  Forall (fun c => 0 <= c <= utf8.MaxRune) rs ->
  Forall low (flat_map (strings.Map_write lower) rs) ->
  (length (flat_map (strings.Map_write lower) rs) <= length rs)%nat.
Proof.
  induction 1 as [| c rs Hc Hrs IH]; intros Hlow; [reflexivity |].
  cbn [flat_map] in *. apply Forall_app in Hlow. destruct Hlow as [H1 H2].
  rewrite length_app. cbn [length]. specialize (IH H2).
  destruct (Map_write_shape c Hc) as [Hle | (b & Hb & Hhi)]; [lia |].
  exfalso. rewrite Forall_forall in H1. specialize (H1 b Hb).
  unfold low, high in *. lia.
Qed.

Lemma runes_length (s : gostring) : (length (runes s) <= length s)%nat.
Proof.
  pose proof (RuneCount_le_len s) as H.
  unfold RuneCountInString, len in H. unfold runes.
  rewrite length_map. lia.
Qed.

(** A word whose lower-case form is a banned term is at least as long as
    that term. *)
Lemma banned_word_length (t : gostring) :
  In (strings.ToLower To_LowerCase t) banned_words ->
  (length (strings.ToLower To_LowerCase t) <= length t)%nat.
Proof.
  intros Hin. pose proof (banned_words_letters _ Hin) as Hl.
  rewrite ToLower_runes in *.
  etransitivity; [| apply runes_length].
  apply flat_map_low_length; [apply runes_range |].
  eapply Forall_impl; [| exact Hl].
  unfold lower_letter, low. intros; lia.
Qed.

Lemma redact_word_length (t : gostring) :
  (length (redact_word Is_Punct To_LowerCase t) <= length t)%nat.
Proof.
  unfold redact_word. rewrite redacts_is_banned.
  destruct (is_banned (strings.ToLower To_LowerCase t)) eqn:E; [| lia].
  apply is_banned_In in E.
  pose proof (banned_word_length t E).
  pose proof (banned_words_length _ E).
  change (length mask) with 4%nat. lia.
Qed.

Lemma ToLower_mask : strings.ToLower To_LowerCase mask = mask.
Proof. reflexivity. Qed.

Lemma redact_word_clean (t : gostring) :
  redacts Is_Punct
    (strings.ToLower To_LowerCase (redact_word Is_Punct To_LowerCase t))
  = false.
Proof.
  unfold redact_word.
  destruct (redacts Is_Punct (strings.ToLower To_LowerCase t)) eqn:E.
  - rewrite ToLower_mask. reflexivity.
  - exact E.
Qed.

Lemma map_fixed (A : Type) (f : A -> A) (l : list A) :
  (forall x, In x l -> f x = x) -> map f l = l.
Proof.
  intros H. induction l as [| x l IH]; [reflexivity |].
  cbn [map]. rewrite H by now left.
  rewrite IH; [reflexivity |]. intros y Hy. apply H. now right.
Qed.

Lemma existsb_none (A : Type) (f : A -> bool) (l : list A) :
  (forall x, In x l -> f x = false) -> existsb f l = false.
Proof.
  intros H. induction l as [| x l IH]; [reflexivity |].
  cbn [existsb]. rewrite H by now left.
  apply IH. intros y Hy. apply H. now right.
Qed.

(** The result of [processWords] is a fixed point, found clean, and no
    longer than the body. *)
Lemma processWords_again (b out : gostring) (e : error) :
  processWords Is_Punct To_LowerCase b = Some (out, e) ->
  processWords Is_Punct To_LowerCase out = Some (out, None) /\
  len out <= len b.
Proof.
  intros Hrun.
  pose proof (Split_processWords Is_Punct To_LowerCase LowerCase_ok
                _ _ _ Hrun) as Hsplit.
  split.
  - rewrite (processWords_spec Is_Punct To_LowerCase LowerCase_ok out).
    rewrite Hsplit. rewrite map_fixed, existsb_none.
    + rewrite <- Hsplit, Join_Split. reflexivity.
    + intros t Ht. apply in_map_iff in Ht. destruct Ht as (t0 & <- & _).
      apply redact_word_clean.
    + intros t Ht. apply in_map_iff in Ht. destruct Ht as (t0 & <- & _).
      unfold redact_word at 1. now rewrite redact_word_clean.
  - rewrite (processWords_spec Is_Punct To_LowerCase LowerCase_ok b) in Hrun.
    injection Hrun as <- _. unfold len. apply inj_le.
    rewrite <- (Join_Split space b) at 2.
    apply Join_length_le. apply Forall2_map_l. apply redact_word_length.
Qed.

Variable json_Decode : gostring -> parameters * error.
Variable json_Marshal : jsonValue -> gostring * error.
Hypothesis Marshal_ok : forall v, snd (json_Marshal v) = None.

Let handler := chirpHandler Is_Punct To_LowerCase json_Decode json_Marshal.

(** C6.  [processWords] applied to its own result returns it unchanged
    with a [nil] error; the result passes the length check when the body
    did, and the handler gives for it the response it gave for the
    body. *)
Theorem moderation_is_idempotent (b out : gostring) (e : error) :
  processWords Is_Punct To_LowerCase b = Some (out, e) ->
  processWords Is_Punct To_LowerCase out = Some (out, None) /\
  len out <= len b /\
  (forall w r r' sigma,
     len b <= 140 ->
     json_Decode (req_Body r) = (mkparameters b, None) ->
     json_Decode (req_Body r') = (mkparameters out, None) ->
     handler w r' sigma = handler w r sigma /\
     handler w r sigma
     = Some (send_json 200 (cleaned_response json_Marshal out) w, sigma)).
Proof.
  intros Hrun. destruct (processWords_again b out e Hrun) as [Hagain Hlen].
  split; [exact Hagain |]. split; [exact Hlen |].
  intros w r r' sigma Hb Hd Hd'. unfold handler.
  rewrite (chirpHandler_short Is_Punct To_LowerCase json_Decode json_Marshal
             Marshal_ok w r sigma (mkparameters b) out e Hd Hb Hrun).
  rewrite (chirpHandler_short Is_Punct To_LowerCase json_Decode json_Marshal
             Marshal_ok w r' sigma (mkparameters out) out None Hd');
    [split; reflexivity | cbn [Body]; lia | exact Hagain].
Qed.

(** C8.  The error of [processWords] is not [nil] exactly when a word of
    the body was replaced by the mask; the handler drops the error, and
    two bodies with the same cleaned text get the same response. *)
Theorem flag_is_dropped_by_handler :
  (forall b out e,
     processWords Is_Punct To_LowerCase b = Some (out, e) ->
     (e <> None <->
      exists i t, nth_error (strings.Split b space) i = Some t /\
                  t <> mask /\
                  nth_error (strings.Split out space) i = Some mask)) /\
  (forall w r sigma params out e,
     json_Decode (req_Body r) = (params, None) ->
     len (Body params) <= 140 ->
     processWords Is_Punct To_LowerCase (Body params) = Some (out, e) ->
     handler w r sigma
     = Some (send_json 200 (cleaned_response json_Marshal out) w, sigma)) /\
  (forall w r1 r2 sigma b1 b2 out e1 e2,
     json_Decode (req_Body r1) = (mkparameters b1, None) ->
     json_Decode (req_Body r2) = (mkparameters b2, None) ->
     len b1 <= 140 -> len b2 <= 140 ->
     processWords Is_Punct To_LowerCase b1 = Some (out, e1) ->
     processWords Is_Punct To_LowerCase b2 = Some (out, e2) ->
     handler w r1 sigma = handler w r2 sigma).
Proof.
  split; [| split].
  - intros b out e Hrun.
    pose proof (Split_processWords Is_Punct To_LowerCase LowerCase_ok
                  _ _ _ Hrun) as Hsplit.
    rewrite (processWords_spec Is_Punct To_LowerCase LowerCase_ok b) in Hrun.
    injection Hrun as _ He. rewrite Hsplit. split.
    + intros Hne.
      destruct (existsb _ (strings.Split b space)) eqn:Ex;
        [| congruence].
      apply existsb_exists in Ex. destruct Ex as (t & Hin & Hred).
      apply In_nth_error in Hin. destruct Hin as [i Hi].
      exists i, t. split; [exact Hi |]. split.
      * intros ->. rewrite ToLower_mask in Hred. discriminate.
      * rewrite nth_error_map, Hi. cbn [option_map].
        unfold redact_word. now rewrite Hred.
    + intros (i & t & Hi & Hneq & Hm).
      rewrite nth_error_map, Hi in Hm. cbn [option_map] in Hm.
      injection Hm as Hm. unfold redact_word in Hm.
      destruct (redacts Is_Punct (strings.ToLower To_LowerCase t)) eqn:Hred;
        [| congruence].
      assert (Ex : existsb
                (fun t => redacts Is_Punct (strings.ToLower To_LowerCase t))
                (strings.Split b space) = true).
      { apply existsb_exists. exists t. split; [| exact Hred].
        eapply nth_error_In; eauto. }
      rewrite Ex in He. subst e. discriminate.
  - intros w r sigma params out e Hd Hlen Hrun. unfold handler.
    eapply chirpHandler_short; eauto.
  - intros w r1 r2 sigma b1 b2 out e1 e2 Hd1 Hd2 Hl1 Hl2 Hr1 Hr2.
    unfold handler.
    rewrite (chirpHandler_short Is_Punct To_LowerCase json_Decode json_Marshal
               Marshal_ok w r1 sigma (mkparameters b1) out e1 Hd1 Hl1 Hr1).
    rewrite (chirpHandler_short Is_Punct To_LowerCase json_Decode json_Marshal
               Marshal_ok w r2 sigma (mkparameters b2) out e2 Hd2 Hl2 Hr2).
    reflexivity.
Qed.

End Idempotence.

(** * The metrics middleware *)

Lemma wrap32_small (z : Z) :
  -2147483648 <= z <= 2147483647 -> wrap32 z = z.
Proof.
  intros H. unfold wrap32. rewrite Z.mod_small; lia.
Qed.

Lemma wrap32_add (a b : Z) : wrap32 (wrap32 a + b) = wrap32 (a + b).
Proof.
  unfold wrap32. f_equal.
  replace ((a + 2147483648) mod 4294967296 - 2147483648 + b + 2147483648)
    with ((a + 2147483648) mod 4294967296 + b) by lia.
  rewrite Z.add_mod_idemp_l by lia. f_equal. lia.
Qed.

Lemma wrap32_range (z : Z) : -2147483648 <= wrap32 z <= 2147483647.
Proof.
  unfold wrap32.
  pose proof (Z.mod_pos_bound (z + 2147483648) 4294967296 ltac:(lia)). lia.
Qed.

(** X12.  Behind the middleware, [n] requests served one after the other
    add [n] to the counter, modulo 2^32 as an [int32], when the wrapped
    handler leaves it alone. *)
Lemma middleware_counts_requests (next : Handler)
  (rs : list (ResponseWriter * Request)) :
  (forall w r s w' s',
     next w r s = Some (w', s') -> fileserverHits s' = fileserverHits s) ->
  forall sigma sigma',
    -2147483648 <= fileserverHits sigma <= 2147483647 ->
    serve_all (middlewareMetricsInc next) rs sigma = Some sigma' ->
    fileserverHits sigma'
    = wrap32 (fileserverHits sigma + Z.of_nat (length rs)).
Proof.
  intros Hframe.
  induction rs as [| [w r] rs IH]; intros sigma sigma' Hrange Hrun.
  - cbn in Hrun. injection Hrun as <-. cbn [length Z.of_nat].
    rewrite Z.add_0_r. symmetry. now apply wrap32_small.
  - cbn [serve_all] in Hrun. unfold middlewareMetricsInc at 1 in Hrun.
    destruct (next w r (fileserverHits_Add 1 sigma)) as [[w1 s1] |] eqn:E;
      [| discriminate].
    apply Hframe in E. cbn [fileserverHits_Add fileserverHits] in E.
    apply IH in Hrun; [| rewrite E; apply wrap32_range].
    rewrite Hrun, E, wrap32_add. f_equal.
    change (length ((w, r) :: rs)) with (S (length rs)). lia.
Qed.

(** C7.  The handler made by [middlewareMetricsInc] adds one to the
    counter and then runs the wrapped handler on the same writer and
    request, in a world that differs by the counter only; what the wrapped
    handler returns is returned as it is. *)
Theorem middleware_counts_then_delegates (next : Handler)
  (w : ResponseWriter) (r : Request) (sigma : World) :
  middlewareMetricsInc next w r sigma
  = next w r (fileserverHits_Add 1 sigma) /\
  fileserverHits (fileserverHits_Add 1 sigma)
  = wrap32 (fileserverHits sigma + 1) /\
  log_output (fileserverHits_Add 1 sigma) = log_output sigma /\
  (-2147483648 <= fileserverHits sigma < 2147483647 ->
   fileserverHits (fileserverHits_Add 1 sigma) = fileserverHits sigma + 1) /\
  ((forall w0 r0 s0 w1 s1,
      next w0 r0 s0 = Some (w1, s1) -> fileserverHits s1 = fileserverHits s0) ->
   forall w' sigma',
     middlewareMetricsInc next w r sigma = Some (w', sigma') ->
     fileserverHits sigma' = wrap32 (fileserverHits sigma + 1)) /\
  option_map (fun p => fileserverHits (snd p))
    (middlewareMetricsInc resetMetricsHandler w r sigma) = Some 0.
Proof.
  split; [reflexivity |]. split; [reflexivity |]. split; [reflexivity |].
  split; [| split].
  - intros H. cbn [fileserverHits_Add fileserverHits].
    apply wrap32_small. lia.
  - intros Hframe w' sigma' Hrun. unfold middlewareMetricsInc in Hrun.
    apply Hframe in Hrun. rewrite Hrun. reflexivity.
  - reflexivity.
Qed.


(** * The machine and the function *)

Lemma skipn_cons_nth (A : Type) (l : list A) (j : nat) (b : A) (bs : list A) :
  skipn j l = b :: bs -> nth_error l j = Some b /\ skipn (S j) l = bs.
Proof.
  revert l. induction j as [| j IH]; intros l H.
  - destruct l as [| x l]; [discriminate |]. cbn in H. injection H as -> ->.
    split; reflexivity.
  - destruct l as [| x l]; [discriminate |]. cbn [skipn] in H.
    apply IH in H. exact H.
Qed.

Lemma skipn_nil_length (A : Type) (l : list A) (j : nat) :
  skipn j l = [] -> (length l <= j)%nat.
Proof.
  revert l. induction j as [| j IH]; intros l H.
  - cbn in H. subst l. reflexivity.
  - destruct l as [| x l]; [simpl; lia |]. cbn [skipn] in H.
    apply IH in H. simpl. lia.
Qed.

Section MachineFacts.

Variable Is_Punct : rune -> bool.
Variable lowerWords : list gostring.

Lemma step_deterministic (m m1 m2 : machine) :
  step Is_Punct lowerWords m m1 -> step Is_Punct lowerWords m m2 -> m1 = m2.
Proof.
  intros H1 H2.
  inversion H1; subst; inversion H2; subst; try congruence.
Qed.

Lemma final_no_step (m m' : machine) :
  final lowerWords m -> ~ step Is_Punct lowerWords m m'.
Proof.
  unfold final. intros Hf Hs. inversion Hs; subst; cbn in Hf; congruence.
Qed.

Lemma steps_trans (m1 m2 m3 : machine) :
  steps Is_Punct lowerWords m1 m2 -> steps Is_Punct lowerWords m2 m3 ->
  steps Is_Punct lowerWords m1 m3.
Proof.
  induction 1 as [| a b c Hab _ IH]; intros H; [exact H |].
  eapply steps_step; [exact Hab | now apply IH].
Qed.

(** Two runs from one state: a run that has come to a state without
    successor has gone through every state of the other. *)
Lemma steps_confluent (m a b : machine) :
  steps Is_Punct lowerWords m a ->
  (forall a', ~ step Is_Punct lowerWords a a') ->
  steps Is_Punct lowerWords m b -> steps Is_Punct lowerWords b a.
Proof.
  intros Ha Hstuck Hb. revert a Ha Hstuck.
  induction Hb as [| m m' b Hmm' _ IH]; intros a Ha Hstuck; [exact Ha |].
  inversion Ha as [| ? m'' ? Hmm'' Hrest]; subst.
  - exfalso. eapply Hstuck; eauto.
  - rewrite (step_deterministic _ _ _ Hmm' Hmm'') in *. now apply IH.
Qed.

Lemma steps_final_unique (m a b : machine) :
  steps Is_Punct lowerWords m a -> final lowerWords a ->
  steps Is_Punct lowerWords m b -> final lowerWords b -> a = b.
Proof.
  intros Ha Hfa Hb Hfb.
  assert (H : steps Is_Punct lowerWords b a).
  { eapply steps_confluent; eauto. intros a'. now apply final_no_step. }
  inversion H as [| ? b' ? Hbb' _]; subst; [reflexivity |].
  exfalso. eapply final_no_step; eauto.
Qed.


(** The inner loop from position [j], as the function runs it. *)
Lemma inner_loop_steps (i : nat) (word : gostring) (bs : list gostring) :
  nth_error lowerWords i = Some word ->
  forall (j : nat) (ows : list gostring) (found : bool),
  skipn j banned_words = bs -> (j <= length banned_words)%nat ->
  match inner_loop Is_Punct i word bs (ows, found) with
  | Some st' =>
      steps Is_Punct lowerWords (mkMachine i j ows found)
        (mkMachine i (length banned_words) (fst st') (snd st'))
  | None =>
      exists m, steps Is_Punct lowerWords (mkMachine i j ows found) m /\
                panics Is_Punct lowerWords m
  end.
Proof.
  intros Hi. induction bs as [| b bs IH]; intros j ows found Hj Hle.
  - apply skipn_nil_length in Hj.
    replace j with (length banned_words) by lia. apply steps_refl.
  - apply skipn_cons_nth in Hj. destruct Hj as [Hb Hrest].
    assert (Hlt : (S j <= length banned_words)%nat).
    { apply Nat.le_succ_l. apply nth_error_Some. congruence. }
    cbn [inner_loop]. unfold inner_body. cbn [fst].
    destruct (gostring_eqb b word) eqn:Eb.
    + apply gostring_eqb_eq in Eb.
      destruct (hasPunctuation Is_Punct word) eqn:Hp; cbn [negb].
      * specialize (IH (S j) ows found Hrest Hlt).
        destruct (inner_loop Is_Punct i word bs (ows, found)) as [st' |].
        -- eapply steps_step; [| exact IH].
           eapply step_guarded; eauto.
        -- destruct IH as (m & Hm & Hpanic). exists m. split; [| exact Hpanic].
           eapply steps_step; [| exact Hm]. eapply step_guarded; eauto.
      * destruct (store ows i mask) as [ows' |] eqn:Es.
        -- specialize (IH (S j) ows' true Hrest Hlt).
           destruct (inner_loop Is_Punct i word bs (ows', true)) as [st' |].
           ++ eapply steps_step; [| exact IH].
              eapply step_replace; eauto.
           ++ destruct IH as (m & Hm & Hpanic). exists m.
              split; [| exact Hpanic].
              eapply steps_step; [| exact Hm]. eapply step_replace; eauto.
        -- exists (mkMachine i j ows found). split; [apply steps_refl |].
           split.
           ++ intros m' Hs. inversion Hs; subst; congruence.
           ++ unfold final. cbn [m_i]. congruence.
    + assert (Hne : b <> word).
      { intros E. apply gostring_eqb_eq in E. congruence. }
      specialize (IH (S j) ows found Hrest Hlt).
      destruct (inner_loop Is_Punct i word bs (ows, found)) as [st' |].
      * eapply steps_step; [| exact IH]. eapply step_differs; eauto.
      * destruct IH as (m & Hm & Hpanic). exists m. split; [| exact Hpanic].
        eapply steps_step; [| exact Hm]. eapply step_differs; eauto.
Qed.

Lemma outer_loop_steps (lws : list gostring) :
  forall (i : nat) (ows : list gostring) (found : bool),
  skipn i lowerWords = lws -> (i <= length lowerWords)%nat ->
  match outer_loop Is_Punct i lws banned_words (ows, found) with
  | Some st' =>
      steps Is_Punct lowerWords (mkMachine i 0 ows found)
        (mkMachine (length lowerWords) 0 (fst st') (snd st'))
  | None =>
      exists m, steps Is_Punct lowerWords (mkMachine i 0 ows found) m /\
                panics Is_Punct lowerWords m
  end.
Proof.
  induction lws as [| word lws IH]; intros i ows found Hi Hle.
  - apply skipn_nil_length in Hi.
    replace i with (length lowerWords) by lia. apply steps_refl.
  - apply skipn_cons_nth in Hi. destruct Hi as [Hword Hrest].
    assert (Hlt : (S i <= length lowerWords)%nat).
    { apply Nat.le_succ_l. apply nth_error_Some. congruence. }
    cbn [outer_loop].
    pose proof (inner_loop_steps i word banned_words Hword 0 ows found
                  eq_refl (Nat.le_0_l _)) as Hinner.
    destruct (inner_loop Is_Punct i word banned_words (ows, found))
      as [[ows' found'] |].
    + cbn [fst snd] in Hinner.
      assert (Hnext : step Is_Punct lowerWords
                (mkMachine i (length banned_words) ows' found')
                (mkMachine (S i) 0 ows' found')).
      { eapply step_next_word; [exact Hword |].
        apply nth_error_None. reflexivity. }
      specialize (IH (S i) ows' found' Hrest Hlt).
      destruct (outer_loop Is_Punct (S i) lws banned_words (ows', found'))
        as [st' |].
      * eapply steps_trans; [exact Hinner |].
        eapply steps_step; [exact Hnext | exact IH].
      * destruct IH as (m & Hm & Hpanic). exists m. split; [| exact Hpanic].
        eapply steps_trans; [exact Hinner |].
        eapply steps_step; [exact Hnext | exact Hm].
    + exact Hinner.
Qed.

End MachineFacts.

Section Determinism.

Variable Is_Punct : rune -> bool.
Variable To_LowerCase : rune -> rune.

(** The runs of the machine are the values of the function. *)
Lemma returns_processWords (input : gostring) (r : gostring * error) :
  returns Is_Punct To_LowerCase input r <->
  processWords Is_Punct To_LowerCase input = Some r.
Proof.
  set (lws := strings.Split (strings.ToLower To_LowerCase input) space).
  pose proof (outer_loop_steps Is_Punct lws lws 0
                (strings.Split input space) false eq_refl (Nat.le_0_l _))
    as Hloop.
  unfold processWords. fold lws.
  destruct (outer_loop Is_Punct 0 lws banned_words
              (strings.Split input space, false)) as [[ows found] |].
  - cbn [fst snd] in Hloop.
    assert (Hfinal : final lws (mkMachine (length lws) 0 ows found)).
    { unfold final. cbn [m_i]. apply nth_error_None. reflexivity. }
    split.
    + intros Hret. destruct Hret as [m Hm Hf]. fold lws in Hm, Hf.
      rewrite (steps_final_unique Is_Punct lws _ _ _ Hm Hf Hloop Hfinal).
      cbn [m_originalWords m_foundBadWord]. now destruct found.
    + intros Hr.
      replace r with
        (strings.Join (m_originalWords (mkMachine (length lws) 0 ows found))
           [space],
         if m_foundBadWord (mkMachine (length lws) 0 ows found)
         then bad_word_error else None)
        by (cbn [m_originalWords m_foundBadWord]; cbv zeta in Hr;
            destruct found; injection Hr as <-; reflexivity).
      apply returns_intro; assumption.
  - destruct Hloop as (stuck & Hstuck & Hno & Hnf).
    split; [| discriminate].
    intros Hret. destruct Hret as [m Hm Hf]. fold lws in Hm, Hf.
    exfalso.
    assert (H : steps Is_Punct lws m stuck)
      by (eapply steps_confluent; eauto).
    inversion H as [| ? m' ? Hmm' _]; subst; [contradiction |].
    eapply final_no_step; eauto.
Qed.

(** C10.  A run of [processWords] reads the words of the input, the banned
    terms and its own variables: two runs on one input return the same
    pair, which is the value of the function, and with a case table that
    keeps the spaces there is always one. *)
Theorem processWords_is_deterministic (input : gostring) :
  (forall r1 r2,
     returns Is_Punct To_LowerCase input r1 ->
     returns Is_Punct To_LowerCase input r2 -> r1 = r2) /\
  (forall r,
     returns Is_Punct To_LowerCase input r <->
     processWords Is_Punct To_LowerCase input = Some r) /\
  (LowerCase_no_space To_LowerCase ->
   exists r, returns Is_Punct To_LowerCase input r).
Proof.
  split; [| split].
  - intros r1 r2 H1 H2. apply returns_processWords in H1, H2. congruence.
  - apply returns_processWords.
  - intros Hok. eexists. apply returns_processWords.
    apply (processWords_spec Is_Punct To_LowerCase Hok).
Qed.

End Determinism.


(** * The instances meet what the development asks *)

Lemma To_LowerCase_latin_ok : LowerCase_no_space To_LowerCase_latin.
Proof.
  intros r Hr. unfold unicode.MaxASCII, utf8.MaxRune in Hr.
  unfold To_LowerCase_latin.
  destruct ((0xC0 <=? r) && (r <=? 0xDE) && negb (r =? 0xD7)) eqn:E1.
  - apply andb_true_iff in E1. destruct E1 as [E1 _].
    apply andb_true_iff in E1. destruct E1 as [E1 E2].
    apply Z.leb_le in E1, E2. lia.
  - destruct (r =? 0x130); [lia |]. destruct (r =? 0x212A); lia.
Qed.

Lemma latin1_pP_above_ascii (r : Z) :
  0x7F < r -> unicode.latin1_pP r = true ->
  r = 0xA1 \/ r = 0xA7 \/ r = 0xAB \/ r = 0xB6 \/ r = 0xB7 \/ r = 0xBB
  \/ r = 0xBF.
Proof.
  unfold unicode.latin1_pP. intros Hr H.
  repeat match type of H with
         | (_ || _) = true => apply orb_true_iff in H; destruct H as [H | H]
         end;
  repeat match goal with
         | H : (_ && _) = true |- _ => apply andb_true_iff in H; destruct H
         end; boolZ; lia.
Qed.

Lemma general_latin_caseless :
  Punct_caseless Is_Punct_general To_LowerCase_latin.
Proof.
  intros r Hr Hp. unfold unicode.MaxASCII, utf8.MaxRune in Hr.
  unfold unicode.IsPunct, uint32 in Hp.
  rewrite (Z.mod_small r 4294967296) in Hp by lia.
  unfold To_LowerCase_latin.
  destruct (r <=? unicode.MaxLatin1) eqn:El.
  - apply Z.leb_le in El. unfold unicode.MaxLatin1 in El.
    rewrite Z.mod_small in Hp by lia.
    apply latin1_pP_above_ascii in Hp; [| lia].
    destruct Hp as [-> | [-> | [-> | [-> | [-> | [-> | ->]]]]]]; reflexivity.
  - apply Z.leb_gt in El. unfold unicode.MaxLatin1 in El.
    unfold Is_Punct_general in Hp. apply andb_true_iff in Hp.
    destruct Hp as [H1 H2]. apply Z.leb_le in H1, H2.
    replace ((192 <=? r) && (r <=? 222) && negb (r =? 215)) with false.
    2:{ symmetry. apply andb_false_iff. left. apply andb_false_iff. right.
        apply Z.leb_gt. lia. }
    replace (r =? 304) with false by (symmetry; apply Z.eqb_neq; lia).
    replace (r =? 8490) with false by (symmetry; apply Z.eqb_neq; lia).
    reflexivity.
Qed.

Lemma plain_Marshal_ok (v : jsonValue) : snd (plain_Marshal v) = None.
Proof. destruct v; reflexivity. Qed.

Lemma strip_prefix_app (p s : gostring) : strip_prefix p (p ++ s) = Some s.
Proof.
  induction p as [| a p IH]; [reflexivity |].
  cbn [app strip_prefix]. now rewrite Ascii.eqb_refl.
Qed.

(** The decoder reads back the text of a request made by
    [chirp_request]. *)
Lemma plain_Decode_chirp (text : gostring) :
  plain_Decode (req_Body (chirp_request text)) = (mkparameters text, None).
Proof.
  unfold plain_Decode, chirp_request, json_object. cbn [req_Body].
  set (pre := lit "{" ++ [dquote] ++ lit "body" ++ [dquote]
                ++ lit ":" ++ [dquote]).
  replace (lit "{" ++ [dquote] ++ lit "body" ++ [dquote] ++ lit ":"
             ++ [dquote] ++ text ++ [dquote] ++ lit "}")
    with (pre ++ text ++ [dquote] ++ lit "}")
    by (unfold pre; rewrite <- !app_assoc; reflexivity).
  rewrite strip_prefix_app.
  unfold strip_suffix.
  replace (rev (text ++ [dquote] ++ lit "}"))
    with (rev ([dquote] ++ lit "}") ++ rev text)
    by (now rewrite <- rev_app_distr).
  rewrite strip_prefix_app. cbn [option_map]. now rewrite rev_involutive.
Qed.

Lemma chirpHandler_keeps_counter (Is_Punct : rune -> bool)
  (To_LowerCase : rune -> rune)
  (json_Decode : gostring -> parameters * error)
  (json_Marshal : jsonValue -> gostring * error)
  (w : ResponseWriter) (r : Request) (s : World)
  (w' : ResponseWriter) (s' : World) :
  chirpHandler Is_Punct To_LowerCase json_Decode json_Marshal w r s
  = Some (w', s') ->
  fileserverHits s' = fileserverHits s.
Proof.
  unfold chirpHandler.
  destruct (json_Decode (req_Body r)) as [params [e |]].
  - intros H. injection H as _ <-. reflexivity.
  - destruct (len (Body params) >? 140).
    + destruct (json_Marshal _) as [dat [e |]]; intros H;
        injection H as _ <-; reflexivity.
    + destruct (processWords Is_Punct To_LowerCase (Body params))
        as [[out e] |]; [| discriminate].
      destruct (json_Marshal _) as [dat [e' |]]; intros H;
        injection H as _ <-; reflexivity.
Qed.


(** * The statements at work *)


(** Two spaces in a row and a capital: a clean body. *)
Lemma clean_body_unchanged_witness :
  run_processWords (lit "Hello  world") = Some (lit "Hello  world", None) /\
  run_chirpHandler new_response (chirp_request (lit "Hello  world")) world0
  = Some (send_json 200
            (cleaned_response plain_Marshal (lit "Hello  world"))
            new_response, world0).
Proof.
  destruct (clean_body_unchanged Is_Punct_general To_LowerCase_latin
              plain_Decode plain_Marshal plain_Marshal_ok
              (lit "Hello  world")) as [Hp Hh].
  - vm_compute. intros word [<- | [<- | [<- | []]]] [H | [H | [H | []]]];
      discriminate.
  - split; [exact Hp |].
    apply Hh; [apply plain_Decode_chirp | vm_compute; discriminate].
Defined.

(** 71 times U+00E9: 71 characters, 142 bytes, and the 400 response. *)
Lemma seventy_one_characters_too_long :
  RuneCountInString (concat (repeat e_acute 71)) = 71 /\
  len (concat (repeat e_acute 71)) = 142 /\
  run_chirpHandler new_response
    (chirp_request (concat (repeat e_acute 71))) world0
  = Some (send_json 400 (too_long_response plain_Marshal) new_response,
          world0).
Proof.
  repeat split; vm_compute; reflexivity.
Qed.

(** 141 letters. *)
Lemma too_long_is_counted_in_bytes_witness :
  run_chirpHandler new_response
    (chirp_request (repeat "a"%char 141)) world0
  = Some (send_json 400 (too_long_response plain_Marshal) new_response,
          world0).
Proof.
  destruct (too_long_is_counted_in_bytes Is_Punct_general To_LowerCase_latin
              plain_Decode plain_Marshal plain_Marshal_ok new_response
              (chirp_request (repeat "a"%char 141)) world0
              (mkparameters (repeat "a"%char 141))
              (plain_Decode_chirp _)) as (H & _ & _).
  assert (Hlen : 140 < len (Body (mkparameters (repeat "a"%char 141))))
    by (vm_compute; reflexivity).
  exact (proj1 (H Hlen)).
Defined.



Lemma flagged_is_not_a_failure_witness :
  exists out flagged,
    run_processWords opinion = Some (out, flagged) /\
    out = opinion_cleaned /\
    run_chirpHandler new_response (chirp_request opinion) world0
    = Some (send_json 200 (cleaned_response plain_Marshal out) new_response,
            world0).
Proof.
  destruct (flagged_is_not_a_failure Is_Punct_general To_LowerCase_latin
              plain_Decode plain_Marshal plain_Marshal_ok
              To_LowerCase_latin_ok new_response (chirp_request opinion)
              world0 (mkparameters opinion) (plain_Decode_chirp _))
    as (out & flagged & Hp & Hout & Hh & _).
  - vm_compute. discriminate.
  - exists out, flagged. split; [exact Hp |]. split; [| exact Hh].
    rewrite Hout. reflexivity.
Defined.

(** A word that ends in U+2026, HORIZONTAL ELLIPSIS, of the range
    table. *)
Lemma punctuated_word_is_kept_witness :
  nth_error
    (strings.Split
       (lit "a kerfuffle" ++ ["226"%char; "128"%char; "166"%char]) space) 1
  = Some (lit "kerfuffle" ++ ["226"%char; "128"%char; "166"%char]).
Proof.
  destruct (punctuated_word_is_kept Is_Punct_general To_LowerCase_latin
              general_latin_caseless To_LowerCase_latin_ok)
    as (_ & _ & H & _).
  apply (H (lit "a kerfuffle" ++ ["226"%char; "128"%char; "166"%char])
           (lit "a kerfuffle" ++ ["226"%char; "128"%char; "166"%char])
           None 1%nat); reflexivity.
Defined.

Lemma match_is_on_lower_case_witness :
  run_processWords (lit "KerFuffle is not Fornax? SHARBERT")
  = Some (lit "**** is not Fornax? ****", bad_word_error).
Proof.
  unfold run_processWords.
  rewrite (proj1 (match_is_on_lower_case Is_Punct_general To_LowerCase_latin
                    To_LowerCase_latin_ok
                    (lit "KerFuffle is not Fornax? SHARBERT"))).
  reflexivity.
Defined.

Lemma moderation_is_idempotent_witness :
  run_processWords opinion_cleaned = Some (opinion_cleaned, None) /\
  len opinion_cleaned <= len opinion /\
  run_chirpHandler new_response (chirp_request opinion_cleaned) world0
  = run_chirpHandler new_response (chirp_request opinion) world0.
Proof.
  destruct (moderation_is_idempotent Is_Punct_general To_LowerCase_latin
              To_LowerCase_latin_ok plain_Decode plain_Marshal
              plain_Marshal_ok opinion opinion_cleaned bad_word_error
              ltac:(vm_compute; reflexivity)) as (H1 & H2 & H3).
  split; [exact H1 |]. split; [exact H2 |].
  assert (Hlen : len opinion <= 140) by (vm_compute; discriminate).
  exact (proj1 (H3 new_response (chirp_request opinion)
                   (chirp_request opinion_cleaned) world0 Hlen
                   (plain_Decode_chirp opinion)
                   (plain_Decode_chirp opinion_cleaned))).
Defined.

(** The counter at 41, a request for the chirp handler behind the
    middleware. *)
Lemma middleware_counts_then_delegates_witness :
  match middlewareMetricsInc run_chirpHandler new_response
          (chirp_request opinion) (mkWorld 41 []) with
  | Some (_, sigma') => fileserverHits sigma' = 42
  | None => False
  end.
Proof.
  destruct (middleware_counts_then_delegates run_chirpHandler new_response
              (chirp_request opinion) (mkWorld 41 []))
    as (_ & _ & _ & _ & H & _).
  specialize (H (chirpHandler_keeps_counter _ _ _ _)).
  destruct (middlewareMetricsInc run_chirpHandler new_response
              (chirp_request opinion) (mkWorld 41 []))
    as [[w' sigma'] |] eqn:E.
  - rewrite (H w' sigma' eq_refl). reflexivity.
  - vm_compute in E. discriminate.
Defined.

(** A flagged body and a clean one with the same cleaned text. *)
Lemma flag_is_dropped_by_handler_witness :
  run_chirpHandler new_response (chirp_request opinion) world0
  = run_chirpHandler new_response (chirp_request opinion_cleaned) world0.
Proof.
  destruct (flag_is_dropped_by_handler Is_Punct_general To_LowerCase_latin
              To_LowerCase_latin_ok plain_Decode plain_Marshal
              plain_Marshal_ok) as (_ & _ & H).
  assert (Hlen : len opinion <= 140) by (vm_compute; discriminate).
  assert (Hlen' : len opinion_cleaned <= 140) by (vm_compute; discriminate).
  assert (Hrun : processWords Is_Punct_general To_LowerCase_latin opinion
                 = Some (opinion_cleaned, bad_word_error))
    by (vm_compute; reflexivity).
  assert (Hrun' : processWords Is_Punct_general To_LowerCase_latin
                    opinion_cleaned = Some (opinion_cleaned, None))
    by (vm_compute; reflexivity).
  exact (H new_response (chirp_request opinion)
           (chirp_request opinion_cleaned) world0 opinion opinion_cleaned
           opinion_cleaned bad_word_error None
           (plain_Decode_chirp opinion) (plain_Decode_chirp opinion_cleaned)
           Hlen Hlen' Hrun Hrun').
Defined.

Lemma punctuation_guard_is_idle_witness :
  hasPunctuation Is_Punct_general (lit "sharbert") = false /\
  run_processWords opinion
  = processWords_noguard To_LowerCase_latin opinion.
Proof.
  destruct (punctuation_guard_is_idle Is_Punct_general To_LowerCase_latin)
    as (H1 & _ & _ & H3).
  split.
  - apply H1. right. left. reflexivity.
  - apply H3.
Defined.

Lemma processWords_is_deterministic_witness :
  exists r, returns Is_Punct_general To_LowerCase_latin opinion r.
Proof.
  destruct (processWords_is_deterministic Is_Punct_general To_LowerCase_latin
              opinion) as (_ & _ & H).
  apply H. exact To_LowerCase_latin_ok.
Defined.


(** * More about [hasPunctuation] *)

Lemma IsPunct_byte (Is_Punct : rune -> bool) (a : byte) :
  unicode.IsPunct Is_Punct (byteZ a) = unicode.latin1_pP (byteZ a).
Proof.
  pose proof (byteZ_range a) as R. unfold unicode.IsPunct, uint32.
  rewrite (Z.mod_small (byteZ a) 4294967296) by lia.
  replace (byteZ a <=? unicode.MaxLatin1) with true
    by (symmetry; apply Z.leb_le; unfold unicode.MaxLatin1; lia).
  now rewrite Z.mod_small by lia.
Qed.



(** * More about [processWords] *)

Lemma Split_app_sep (sep : byte) (a b : gostring) :
  strings.Split (a ++ sep :: b) sep
  = strings.Split a sep ++ strings.Split b sep.
Proof.
  induction a as [| c a IH].
  - cbn [app strings.Split]. now rewrite Ascii.eqb_refl.
  - cbn [app strings.Split]. rewrite IH.
    destruct (Ascii.eqb c sep); [reflexivity |].
    pose proof (Split_not_nil sep a) as Hne.
    destruct (strings.Split a sep) as [| w ws]; [congruence | reflexivity].
Qed.

Lemma Join_app (sep : gostring) (l1 l2 : list gostring) :
  l1 <> [] -> l2 <> [] ->
  strings.Join (l1 ++ l2) sep
  = strings.Join l1 sep ++ sep ++ strings.Join l2 sep.
Proof.
  intros H1 H2. induction l1 as [| x l1 IH]; [congruence |].
  destruct l1 as [| y l1].
  - cbn [app strings.Join]. destruct l2; [congruence | reflexivity].
  - change ((x :: y :: l1) ++ l2) with (x :: ((y :: l1) ++ l2)).
    change (strings.Join (x :: (y :: l1) ++ l2) sep)
      with (x ++ sep ++ strings.Join ((y :: l1) ++ l2) sep).
    rewrite IH by discriminate.
    change (strings.Join (x :: y :: l1) sep)
      with (x ++ sep ++ strings.Join (y :: l1) sep).
    now rewrite <- !app_assoc.
Qed.

Lemma Split_length (sep : byte) (s : gostring) :
  length (strings.Split s sep) = S (count_byte sep s).
Proof.
  unfold count_byte. induction s as [| c s IH]; [reflexivity |].
  cbn [strings.Split count_occ].
  destruct (Ascii.eqb_spec c sep) as [-> | Hc].
  - destruct (ascii_dec sep sep); [| congruence]. cbn [length]. now rewrite IH.
  - destruct (ascii_dec c sep); [congruence |].
    destruct (strings.Split s sep) as [| w ws]; cbn [length] in *; lia.
Qed.

Lemma processWords_noguard_eq (Is_Punct : rune -> bool)
  (To_LowerCase : rune -> rune) (input : gostring) :
  processWords Is_Punct To_LowerCase input
  = processWords_noguard To_LowerCase input.
Proof.
  unfold processWords, processWords_noguard.
  now rewrite outer_loop_noguard_eq.
Qed.

Lemma ToLower_of_low (To_LowerCase : rune -> rune) (s : gostring) :
  Forall low s ->
  strings.ToLower To_LowerCase s = map strings.ToLower_ascii s.
Proof.
  intros Hlow. rewrite ToLower_runes, runes_low by exact Hlow.
  now apply flat_map_low.
Qed.

Lemma To_LowerCase_none_ok : LowerCase_no_space To_LowerCase_none.
Proof.
  intros r Hr. unfold To_LowerCase_none, unicode.MaxASCII, utf8.MaxRune in *.
  lia.
Qed.

Lemma Split_low (s : gostring) :
  Forall low s -> Forall (Forall low) (strings.Split s space).
Proof.
  induction 1 as [| c s Hc Hs IH]; cbn [strings.Split].
  - repeat constructor.
  - destruct (Ascii.eqb c space).
    + constructor; [constructor | exact IH].
    + destruct (strings.Split s space) as [| w ws].
      * repeat constructor. exact Hc.
      * inversion IH; subst. constructor; [| assumption].
        now constructor.
Qed.

Lemma Forall2_map_r (A B : Type) (R : A -> B -> Prop) (f : A -> B)
  (l : list A) :
  (forall x, R x (f x)) -> Forall2 R l (map f l).
Proof.
  intros H. induction l as [| x l IH]; constructor; auto.
Qed.

Section MoreProcessWords.

Variable Is_Punct : rune -> bool.
Variable To_LowerCase : rune -> rune.

(** X8.  On a body of ASCII bytes [processWords] does not consult the
    Unicode tables: it never panics, and it replaces the words that are a
    banned term once their capitals are lowered. *)
Theorem processWords_ascii (b : gostring) :
  Forall low b ->
  processWords Is_Punct To_LowerCase b
  = Some (strings.Join
            (map (fun t => if is_banned (map strings.ToLower_ascii t)
                           then mask else t)
                 (strings.Split b space)) [space],
          if existsb (fun t => is_banned (map strings.ToLower_ascii t))
                     (strings.Split b space)
          then bad_word_error else None).
Proof.
  intros Hlow.
  assert (E : processWords Is_Punct To_LowerCase b
              = processWords Is_Punct To_LowerCase_none b).
  { rewrite !processWords_noguard_eq. unfold processWords_noguard.
    now rewrite !(ToLower_of_low _ b Hlow). }
  rewrite E, (processWords_spec Is_Punct To_LowerCase_none
                To_LowerCase_none_ok).
  pose proof (Split_low b Hlow) as Hws. rewrite Forall_forall in Hws.
  f_equal. f_equal.
  - f_equal. apply map_ext_in. intros t Ht. unfold redact_word.
    now rewrite redacts_is_banned, (ToLower_of_low _ t (Hws t Ht)).
  - assert (Ex : existsb (fun t => redacts Is_Punct
                            (strings.ToLower To_LowerCase_none t))
                   (strings.Split b space)
                 = existsb (fun t => is_banned (map strings.ToLower_ascii t))
                     (strings.Split b space)).
    { induction (strings.Split b space) as [| t ws IH]; [reflexivity |].
      cbn [existsb]. rewrite IH by (intros x Hx; apply Hws; now right).
      rewrite redacts_is_banned, (ToLower_of_low _ t) by (apply Hws; now left).
      reflexivity. }
    now rewrite Ex.
Qed.

Hypothesis LowerCase_ok : LowerCase_no_space To_LowerCase.

(** X3.  No word of the result is a banned term, in any mix of capitals
    and small letters. *)
Theorem result_has_no_banned_word (b out : gostring) (e : error) :
  processWords Is_Punct To_LowerCase b = Some (out, e) ->
  forall t, In t (strings.Split out space) ->
    is_banned (strings.ToLower To_LowerCase t) = false.
Proof.
  intros Hrun t Ht.
  rewrite (Split_processWords Is_Punct To_LowerCase LowerCase_ok _ _ _ Hrun)
    in Ht.
  apply in_map_iff in Ht. destruct Ht as (t0 & <- & _).
  rewrite <- (redacts_is_banned Is_Punct). apply redact_word_clean.
Qed.

(** X4.  The result has the words of the body in number and in order,
    each one as it was or replaced by the mask, and so the same number of
    spaces. *)
Theorem result_keeps_the_words (b out : gostring) (e : error) :
  processWords Is_Punct To_LowerCase b = Some (out, e) ->
  Forall2 (fun t o => o = t \/ o = mask)
    (strings.Split b space) (strings.Split out space) /\
  length (strings.Split out space) = length (strings.Split b space) /\
  count_byte space out = count_byte space b.
Proof.
  intros Hrun.
  pose proof (Split_processWords Is_Punct To_LowerCase LowerCase_ok
                _ _ _ Hrun) as Hs.
  assert (Hlen : length (strings.Split out space)
                 = length (strings.Split b space))
    by (now rewrite Hs, length_map).
  split; [| split; [exact Hlen |]].
  - rewrite Hs. apply Forall2_map_r. intros t.
    unfold redact_word. destruct (redacts Is_Punct _); [now right | now left].
  - rewrite !Split_length in Hlen. lia.
Qed.

(** X5.  The error is [nil] exactly when the result is the body. *)
Theorem nil_error_iff_unchanged (b out : gostring) (e : error) :
  processWords Is_Punct To_LowerCase b = Some (out, e) ->
  (e = None <-> out = b).
Proof.
  intros Hrun.
  pose proof (Split_processWords Is_Punct To_LowerCase LowerCase_ok
                _ _ _ Hrun) as Hs.
  rewrite (processWords_spec Is_Punct To_LowerCase LowerCase_ok) in Hrun.
  injection Hrun as Hout He.
  split.
  - intros ->.
    destruct (existsb _ (strings.Split b space)) eqn:Ex;
      [discriminate |].
    rewrite <- Hout, map_fixed; [apply Join_Split |].
    intros t Ht. unfold redact_word.
    destruct (redacts Is_Punct (strings.ToLower To_LowerCase t)) eqn:Hr;
      [| reflexivity].
    exfalso.
    assert (existsb (fun t => redacts Is_Punct
                                (strings.ToLower To_LowerCase t))
              (strings.Split b space) = true)
      by (apply existsb_exists; now exists t).
    congruence.
  - intros ->. rewrite existsb_none in He; [now subst e |].
    intros t Ht.
    destruct (redacts Is_Punct (strings.ToLower To_LowerCase t)) eqn:Hr;
      [| reflexivity].
    exfalso.
    assert (Hfix : redact_word Is_Punct To_LowerCase t = t).
    { apply In_nth_error in Ht. destruct Ht as [i Hi].
      assert (Hm : nth_error (map (redact_word Is_Punct To_LowerCase)
                                (strings.Split b space)) i
                   = Some (redact_word Is_Punct To_LowerCase t))
        by (now rewrite nth_error_map, Hi).
      rewrite <- Hs, Hi in Hm. now injection Hm as <-. }
    unfold redact_word in Hfix. rewrite Hr in Hfix. subst t.
    rewrite ToLower_mask in Hr. discriminate.
Qed.

(** X7.  Moderation is word by word: a body made of two parts with a
    space between gives the two results with a space between, and is
    flagged when one of the parts is. *)
Theorem processWords_around_space (a b : gostring) :
  processWords Is_Punct To_LowerCase (a ++ space :: b)
  = match processWords Is_Punct To_LowerCase a,
          processWords Is_Punct To_LowerCase b with
    | Some (oa, ea), Some (ob, eb) =>
        Some (oa ++ space :: ob,
              match ea, eb with
              | None, None => None
              | _, _ => bad_word_error
              end)
    | _, _ => None
    end.
Proof.
  rewrite !(processWords_spec Is_Punct To_LowerCase LowerCase_ok).
  rewrite Split_app_sep, map_app, existsb_app.
  rewrite Join_app.
  - f_equal. f_equal.
    destruct (existsb _ (strings.Split a space)),
             (existsb _ (strings.Split b space)); reflexivity.
  - pose proof (Split_not_nil space a).
    destruct (strings.Split a space); [congruence | discriminate].
  - pose proof (Split_not_nil space b).
    destruct (strings.Split b space); [congruence | discriminate].
Qed.

End MoreProcessWords.


Lemma Join_length (l : list gostring) (sep : gostring) :
  l <> [] ->
  (length (strings.Join l sep) + length sep
   = list_sum (map (@length byte) l) + length l * length sep)%nat.
Proof.
  intros Hne. induction l as [| x l IH]; [congruence |].
  destruct l as [| y l].
  - cbn. lia.
  - change (strings.Join (x :: y :: l) sep)
      with (x ++ sep ++ strings.Join (y :: l) sep).
    rewrite !length_app.
    specialize (IH ltac:(discriminate)).
    change (map (@length byte) (x :: y :: l))
      with (length x :: map (@length byte) (y :: l)).
    change (list_sum (length x :: map (@length byte) (y :: l)))
      with (length x + list_sum (map (@length byte) (y :: l)))%nat.
    change (length (x :: y :: l)) with (S (length (y :: l))).
    lia.
Qed.

Section Shorter.

Variable Is_Punct : rune -> bool.
Variable To_LowerCase : rune -> rune.
Hypothesis LowerCase_ok : LowerCase_no_space To_LowerCase.

Lemma redacted_sum (ws : list gostring) :
  (list_sum (map (@length byte) (map (redact_word Is_Punct To_LowerCase) ws))
   + 2 * length (filter (fun t => is_banned (strings.ToLower To_LowerCase t))
                        ws)
   <= list_sum (map (@length byte) ws))%nat.
Proof.
  induction ws as [| t ws IH]; [reflexivity |].
  unfold list_sum in *. cbn [map fold_right filter].
  unfold redact_word at 1. rewrite redacts_is_banned.
  destruct (is_banned (strings.ToLower To_LowerCase t)) eqn:E.
  - apply is_banned_In in E.
    pose proof (banned_word_length To_LowerCase LowerCase_ok t E).
    pose proof (banned_words_length _ E).
    change (length mask) with 4%nat. cbn [length]. lia.
  - lia.
Qed.

(** X6.  Every replaced word makes the result at least two bytes shorter
    than the body: the shortest banned term has six letters, the mask
    four. *)
Theorem result_is_shorter (b out : gostring) (e : error) :
  processWords Is_Punct To_LowerCase b = Some (out, e) ->
  len out
  + 2 * Z.of_nat
          (length (filter
                     (fun t => is_banned (strings.ToLower To_LowerCase t))
                     (strings.Split b space)))
  <= len b.
Proof.
  intros Hrun.
  rewrite (processWords_spec Is_Punct To_LowerCase LowerCase_ok) in Hrun.
  injection Hrun as <- _.
  pose proof (Split_not_nil space b) as Hne.
  pose proof (redacted_sum (strings.Split b space)) as Hsum.
  pose proof (Join_length (map (redact_word Is_Punct To_LowerCase)
                             (strings.Split b space)) [space]) as H1.
  pose proof (Join_length (strings.Split b space) [space] Hne) as H2.
  rewrite Join_Split in H2. rewrite length_map in H1.
  assert (Hne' : map (redact_word Is_Punct To_LowerCase)
                   (strings.Split b space) <> []).
  { destruct (strings.Split b space); [congruence | discriminate]. }
  specialize (H1 Hne'). unfold len. lia.
Qed.

End Shorter.

(** * More about [chirpHandler] *)

Section MoreHandler.

Variable Is_Punct : rune -> bool.
Variable To_LowerCase : rune -> rune.
Variable json_Decode : gostring -> parameters * error.
Variable json_Marshal : jsonValue -> gostring * error.

Let handler := chirpHandler Is_Punct To_LowerCase json_Decode json_Marshal.

Hypothesis Marshal_ok : forall v, snd (json_Marshal v) = None.

(** X10.  [chirpHandler] never changes the counter; it leaves the whole
    world as it found it when the request decodes, and adds one line to
    the log when it does not. *)
Theorem chirpHandler_world (w : ResponseWriter) (r : Request)
  (sigma : World) (w' : ResponseWriter) (sigma' : World) :
  handler w r sigma = Some (w', sigma') ->
  fileserverHits sigma' = fileserverHits sigma /\
  (snd (json_Decode (req_Body r)) = None -> sigma' = sigma) /\
  (forall e, snd (json_Decode (req_Body r)) = Some e ->
     log_output sigma' = log_output sigma ++ [log_decoding e] /\
     w' = WriteHeader 500 w).
Proof.
  unfold handler, chirpHandler.
  destruct (json_Decode (req_Body r)) as [params [e |]]; cbn [snd].
  - intros H. injection H as <- <-. cbn.
    split; [reflexivity |]. split; [discriminate |].
    intros e' He. injection He as <-. now split.
  - destruct (len (Body params) >? 140).
    + pose proof (Marshal_ok (of_errorReturnVals
                    (mkerrorReturnVals (lit "Chirp is too long")))) as Hm.
      destruct (json_Marshal _) as [dat err]. cbn [snd] in Hm. subst err.
      intros H. injection H as _ <-.
      split; [reflexivity |]. split; [reflexivity | discriminate].
    + destruct (processWords Is_Punct To_LowerCase (Body params))
        as [[out e] |]; [| discriminate].
      pose proof (Marshal_ok (of_cleanedReturnVals
                                (mkcleanedReturnVals out))) as Hm.
      destruct (json_Marshal _) as [dat err]. cbn [snd] in Hm. subst err.
      intros H. injection H as _ <-.
      split; [reflexivity |]. split; [reflexivity | discriminate].
Qed.

Hypothesis LowerCase_ok : LowerCase_no_space To_LowerCase.

(** X9.  On a fresh response writer [chirpHandler] always answers, and
    the status tells what happened: 500 when the request does not decode
    (nothing else is sent), 400 when the body has more than 140 bytes,
    200 otherwise. *)
Theorem chirpHandler_status (w : ResponseWriter) (r : Request)
  (sigma : World) :
  rw_status w = None ->
  exists w' sigma',
    handler w r sigma = Some (w', sigma') /\
    (rw_status w' = Some 500 \/ rw_status w' = Some 400
     \/ rw_status w' = Some 200) /\
    (rw_status w' = Some 500 <-> snd (json_Decode (req_Body r)) <> None) /\
    (rw_status w' = Some 400 <->
     snd (json_Decode (req_Body r)) = None /\
     140 < len (Body (fst (json_Decode (req_Body r))))) /\
    (rw_status w' = Some 200 <->
     snd (json_Decode (req_Body r)) = None /\
     len (Body (fst (json_Decode (req_Body r)))) <= 140) /\
    (rw_status w' = Some 500 ->
     rw_body w' = rw_body w /\ rw_header w' = rw_header w).
Proof.
  intros Hw.
  destruct (json_Decode (req_Body r)) as [params [e |]] eqn:Hd;
    cbn [fst snd].
  - exists (WriteHeader 500 w), (log_Printf (log_decoding e) sigma).
    split; [unfold handler, chirpHandler; now rewrite Hd |].
    unfold WriteHeader. rewrite Hw. cbn [rw_status rw_body rw_header].
    split; [now left |].
    repeat split; try discriminate; try congruence;
      intros [H _]; discriminate.
  - destruct (Z_le_gt_dec (len (Body params)) 140) as [Hle | Hgt].
    + pose proof (processWords_spec Is_Punct To_LowerCase LowerCase_ok
                    (Body params)) as Hp.
      eexists. exists sigma. split.
      * unfold handler.
        eapply (chirpHandler_short Is_Punct To_LowerCase json_Decode
                  json_Marshal Marshal_ok); eauto.
      * destruct (send_json_fresh 200 (cleaned_response json_Marshal
          (strings.Join (map (redact_word Is_Punct To_LowerCase)
             (strings.Split (Body params) space)) [space])) w Hw)
          as (Hs & _ & _).
        rewrite Hs. split; [now right; right |].
        repeat split; try discriminate; try congruence; try lia;
          try (intros [_ H]; lia); intros H; congruence.
    + eexists. exists sigma. split.
      * unfold handler.
        eapply (chirpHandler_long Is_Punct To_LowerCase json_Decode
                  json_Marshal Marshal_ok); eauto. lia.
      * destruct (send_json_fresh 400 (too_long_response json_Marshal) w Hw)
          as (Hs & _ & _).
        rewrite Hs. split; [now right; left |].
        repeat split; try discriminate; try congruence; try lia;
          try (intros [_ H]; lia); intros H; congruence.
Qed.

(** X11.  The text of a 200 response has at most 140 bytes, and none of
    its words is a banned term in any mix of capitals and small
    letters. *)
Theorem cleaned_text_is_clean (w : ResponseWriter) (r : Request)
  (sigma : World) (params : parameters) :
  json_Decode (req_Body r) = (params, None) ->
  len (Body params) <= 140 ->
  exists out,
    handler w r sigma
    = Some (send_json 200 (cleaned_response json_Marshal out) w, sigma) /\
    len out <= 140 /\
    forall t, In t (strings.Split out space) ->
      is_banned (strings.ToLower To_LowerCase t) = false.
Proof.
  intros Hd Hlen.
  pose proof (processWords_spec Is_Punct To_LowerCase LowerCase_ok
                (Body params)) as Hp.
  destruct (processWords_again Is_Punct To_LowerCase LowerCase_ok
              _ _ _ Hp) as [_ Hshort].
  eexists. split; [| split].
  - unfold handler.
    eapply (chirpHandler_short Is_Punct To_LowerCase json_Decode
              json_Marshal Marshal_ok); eauto.
  - lia.
  - intros t Ht.
    rewrite (Split_processWords Is_Punct To_LowerCase LowerCase_ok _ _ _ Hp)
      in Ht.
    apply in_map_iff in Ht. destruct Ht as (t0 & <- & _).
    rewrite <- (redacts_is_banned Is_Punct). apply redact_word_clean.
Qed.

End MoreHandler.


(** * The metrics page *)

Lemma strip_suffix_app (p s : gostring) : strip_suffix p (s ++ p) = Some s.
Proof.
  unfold strip_suffix. rewrite rev_app_distr, strip_prefix_app.
  cbn [option_map]. now rewrite rev_involutive.
Qed.

Lemma atoi_fmt_d (n : Z) : atoi (fmt_d n) = Some n.
Proof.
  unfold atoi, fmt_d. rewrite string_of_list_ascii_of_string.
  rewrite NilZero.isi.
  - cbn [option_map]. now rewrite DecimalZ.of_to.
  - destruct n; cbn; try discriminate.
    intros H. injection H as H. now apply Unsigned.to_uint_nonnil in H.
  - destruct n; cbn; try discriminate.
    intros H. injection H as H. now apply Unsigned.to_uint_nonnil in H.
Qed.

Lemma read_count_Sprintf (n : Z) :
  read_count (Sprintf_htmlTemplate n) = Some n.
Proof.
  unfold read_count, Sprintf_htmlTemplate.
  rewrite strip_prefix_app, strip_suffix_app. apply atoi_fmt_d.
Qed.

(** X13.  [getMetricsHandler] changes nothing in the world, and on a
    fresh response writer answers 200 with an HTML page from which the
    counter reads back: two values of the counter never give the same
    page. *)
Theorem metrics_page_reads_back (w : ResponseWriter) (r : Request)
  (sigma : World) :
  rw_status w = None ->
  exists w',
    getMetricsHandler w r sigma = Some (w', sigma) /\
    rw_status w' = Some 200 /\
    In (content_type, text_html) (rw_header w') /\
    rw_body w' = rw_body w ++ Sprintf_htmlTemplate (fileserverHits sigma) /\
    read_count (Sprintf_htmlTemplate (fileserverHits sigma))
    = Some (fileserverHits sigma) /\
    (forall n, Sprintf_htmlTemplate n
               = Sprintf_htmlTemplate (fileserverHits sigma) ->
               n = fileserverHits sigma).
Proof.
  intros Hw. eexists. split; [reflexivity |].
  unfold Write, WriteHeader, Header_Set. rewrite Hw.
  cbn [rw_status rw_body rw_header].
  split; [reflexivity |]. split; [| split; [reflexivity | split]].
  - induction (rw_header w) as [| [k v] h IH].
    + left. reflexivity.
    + cbn [header_set]. destruct (gostring_eqb k content_type).
      * left. reflexivity.
      * right. exact IH.
  - apply read_count_Sprintf.
  - intros n Hn. apply (f_equal read_count) in Hn.
    rewrite !read_count_Sprintf in Hn. now injection Hn.
Qed.

(** * The server *)

Section Server.

Variable Is_Punct : rune -> bool.
Variable To_LowerCase : rune -> rune.
Variable json_Decode : gostring -> parameters * error.
Variable json_Marshal : jsonValue -> gostring * error.
Variable fileServer : Handler.
Variable createUserHandler : Handler.
Variable ServeMux_match : Request -> option pattern.
Variable ServeMux_unmatched : Handler.

Let server : Handler :=
  ServeMux_ServeHTTP Is_Punct To_LowerCase json_Decode json_Marshal
    fileServer createUserHandler ServeMux_match ServeMux_unmatched.

(** The handlers that are not in this file have no access to the
    counter. *)
Hypothesis fileServer_frame : keeps_counter fileServer.
Hypothesis createUser_frame : keeps_counter createUserHandler.
Hypothesis unmatched_frame : keeps_counter ServeMux_unmatched.

(** What one request does to the counter. *)
Lemma server_step (w : ResponseWriter) (r : Request) (s : World)
  (w' : ResponseWriter) (s' : World) :
  server w r s = Some (w', s') ->
  fileserverHits s'
  = if goes_to ServeMux_match pat_app (w, r)
    then wrap32 (fileserverHits s + 1)
    else if goes_to ServeMux_match pat_reset (w, r) then 0
    else fileserverHits s.
Proof.
  unfold server, ServeMux_ServeHTTP, goes_to. cbn [snd].
  destruct (ServeMux_match r) as [[] |]; cbn [routes]; intros H.
  - unfold middlewareMetricsInc in H. apply fileServer_frame in H.
    exact H.
  - injection H as _ <-. reflexivity.
  - injection H as _ <-. reflexivity.
  - injection H as _ <-. reflexivity.
  - now apply chirpHandler_keeps_counter in H.
  - now apply createUser_frame in H.
  - now apply unmatched_frame in H.
Qed.

Lemma server_hits (rs : list (ResponseWriter * Request)) :
  forall s s',
    int32_range (fileserverHits s) ->
    serve_all server rs s = Some s' ->
    fileserverHits s'
    = match after_last_reset ServeMux_match rs with
      | Some t => wrap32 (count_app ServeMux_match t)
      | None => wrap32 (fileserverHits s + count_app ServeMux_match rs)
      end.
Proof.
  unfold int32_range.
  induction rs as [| [w r] rs IH]; intros s s' Hrange Hrun.
  - cbn in Hrun. injection Hrun as <-. cbn [after_last_reset].
    unfold count_app. cbn. rewrite Z.add_0_r. symmetry.
    now apply wrap32_small.
  - cbn [serve_all] in Hrun.
    destruct (server w r s) as [[w1 s1] |] eqn:E; [| discriminate].
    apply server_step in E.
    assert (Hr1 : -2147483648 <= fileserverHits s1 <= 2147483647).
    { rewrite E. destruct (goes_to ServeMux_match pat_app (w, r));
        [apply wrap32_range |].
      destruct (goes_to ServeMux_match pat_reset (w, r)); lia. }
    rewrite (IH s1 s' Hr1 Hrun). cbn [after_last_reset].
    destruct (after_last_reset ServeMux_match rs) as [t |];
      [reflexivity |].
    unfold count_app. cbn [filter].
    assert (Hexcl : goes_to ServeMux_match pat_app (w, r) = true ->
                    goes_to ServeMux_match pat_reset (w, r) = false).
    { unfold goes_to. cbn [snd].
      destruct (ServeMux_match r) as [[] |]; congruence. }
    destruct (goes_to ServeMux_match pat_app (w, r)) eqn:Ea.
    + rewrite (Hexcl eq_refl), E, wrap32_add. f_equal.
      cbn [length]. lia.
    + destruct (goes_to ServeMux_match pat_reset (w, r)).
      * rewrite E. reflexivity.
      * rewrite E. reflexivity.
Qed.


End Server.


(** * Valid UTF-8 in, valid UTF-8 out *)

Lemma ValidString_fuel (fuel : nat) (t : gostring) :
  (length t <= fuel)%nat -> ValidString_from fuel t = utf8_ValidString t.
Proof.
  unfold utf8_ValidString.
  remember (length t) as n eqn:Hn. revert fuel t Hn.
  induction n as [n IH] using lt_wf_ind. intros fuel t Hn Hfuel.
  destruct t as [| b t'].
  - subst n. destruct fuel; reflexivity.
  - destruct fuel as [| fuel]; [simpl in *; lia |].
    subst n. cbn [length ValidString_from].
    destruct (utf8.DecodeRuneInString (b :: t')) as [c w] eqn:D.
    assert (Hw : (1 <= w <= length (b :: t'))%nat)
      by (eapply DecodeRune_width; [discriminate | exact D]).
    destruct ((c =? utf8.RuneError) && Nat.eqb w 1); [reflexivity |].
    assert (Hl : (length (skipn w (b :: t')) < length (b :: t'))%nat)
      by (rewrite length_skipn; lia).
    assert (Hl' : (length (skipn w (b :: t')) <= length t')%nat).
    { rewrite length_skipn.
      change (length (b :: t')) with (S (length t')) in *. lia. }
    change (length (b :: t')) with (S (length t')) in Hfuel.
    rewrite (IH _ Hl fuel _ eq_refl) by lia.
    rewrite (IH _ Hl (length t') _ eq_refl) by lia.
    reflexivity.
Qed.

Lemma ValidString_cons (t : gostring) (c : rune) (w : nat) :
  t <> [] -> utf8.DecodeRuneInString t = (c, w) ->
  utf8_ValidString t
  = negb ((c =? utf8.RuneError) && Nat.eqb w 1)
    && utf8_ValidString (skipn w t).
Proof.
  intros Hne D. destruct t as [| b t']; [congruence |].
  pose proof (DecodeRune_width _ _ _ Hne D) as Hw.
  unfold utf8_ValidString at 1. cbn [length ValidString_from]. rewrite D.
  destruct ((c =? utf8.RuneError) && Nat.eqb w 1); [reflexivity |].
  cbn [negb andb]. apply ValidString_fuel.
  rewrite length_skipn. change (length (b :: t')) with (S (length t')) in *.
  lia.
Qed.

(** Validity is decided on each side of an ASCII byte. *)
Lemma ValidString_app_ascii (t u : gostring) (a : byte) :
  byteZ a < 0x80 ->
  utf8_ValidString (t ++ a :: u) = utf8_ValidString t && utf8_ValidString u.
Proof.
  intros Ha.
  remember (length t) as n eqn:Hn. revert t Hn.
  induction n as [n IH] using lt_wf_ind. intros t Hn.
  destruct t as [| b t'].
  - cbn [app]. rewrite (ValidString_cons (a :: u) (byteZ a) 1);
      [| discriminate | now apply DecodeRune_ascii].
    pose proof (byteZ_range a).
    replace (byteZ a =? utf8.RuneError) with false
      by (symmetry; apply Z.eqb_neq; unfold utf8.RuneError; lia).
    reflexivity.
  - destruct (utf8.DecodeRuneInString (b :: t')) as [c w] eqn:D.
    assert (Hne : b :: t' <> []) by discriminate.
    pose proof (DecodeRune_width _ _ _ Hne D) as Hw.
    rewrite (ValidString_cons (b :: t') c w Hne D).
    rewrite (ValidString_cons ((b :: t') ++ a :: u) c w);
      [| discriminate | rewrite DecodeRune_app by assumption; exact D].
    rewrite skipn_app.
    replace (w - length (b :: t'))%nat with 0%nat by lia.
    change (skipn 0 (a :: u)) with (a :: u).
    rewrite (IH (length (skipn w (b :: t')))); [| | reflexivity].
    + now rewrite andb_assoc.
    + subst n. rewrite length_skipn. lia.
Qed.

Lemma ValidString_Join (ws : list gostring) :
  ws <> [] ->
  utf8_ValidString (strings.Join ws [space]) = forallb utf8_ValidString ws.
Proof.
  intros Hne. induction ws as [| w ws IH]; [congruence |].
  destruct ws as [| w' ws].
  - cbn [strings.Join forallb]. now rewrite andb_true_r.
  - change (strings.Join (w :: w' :: ws) [space])
      with (w ++ space :: strings.Join (w' :: ws) [space]).
    rewrite ValidString_app_ascii by exact space_low.
    rewrite IH by discriminate. reflexivity.
Qed.

(** X15.  [processWords] keeps a body valid: the result of a body of valid
    UTF-8 is valid UTF-8, so the text the handler marshals is. *)
Theorem result_is_valid_utf8 (Is_Punct : rune -> bool)
  (To_LowerCase : rune -> rune) (b out : gostring) (e : error) :
  LowerCase_no_space To_LowerCase ->
  processWords Is_Punct To_LowerCase b = Some (out, e) ->
  utf8_ValidString b = true -> utf8_ValidString out = true.
Proof.
  intros Hok Hrun Hb.
  rewrite (processWords_spec Is_Punct To_LowerCase Hok) in Hrun.
  injection Hrun as <- _.
  pose proof (Split_not_nil space b) as Hne.
  rewrite <- (Join_Split space b), ValidString_Join in Hb by exact Hne.
  rewrite ValidString_Join.
  - rewrite forallb_forall in *. intros t Ht.
    apply in_map_iff in Ht. destruct Ht as (t0 & <- & Ht0).
    unfold redact_word. destruct (redacts Is_Punct _);
      [reflexivity | now apply Hb].
  - destruct (strings.Split b space); [congruence | discriminate].
Qed.


(** * The further statements at work *)

Lemma low_opinion : Forall low opinion.
Proof.
  apply Forall_forall. intros b Hb. unfold low.
  repeat (destruct Hb as [<- | Hb]; [vm_compute; reflexivity |]).
  destruct Hb.
Qed.



Lemma opinion_run :
  processWords Is_Punct_general To_LowerCase_latin opinion
  = Some (opinion_cleaned, bad_word_error).
Proof. vm_compute. reflexivity. Qed.

Lemma result_has_no_banned_word_witness :
  is_banned (strings.ToLower To_LowerCase_latin (lit "opinion")) = false.
Proof.
  apply (result_has_no_banned_word Is_Punct_general To_LowerCase_latin
           To_LowerCase_latin_ok opinion opinion_cleaned bad_word_error
           opinion_run).
  vm_compute. tauto.
Defined.

Lemma result_keeps_the_words_witness :
  length (strings.Split opinion_cleaned space)
  = length (strings.Split opinion space) /\
  count_byte space opinion_cleaned = count_byte space opinion.
Proof.
  exact (proj2 (result_keeps_the_words Is_Punct_general To_LowerCase_latin
                  To_LowerCase_latin_ok opinion opinion_cleaned
                  bad_word_error opinion_run)).
Defined.

Lemma nil_error_iff_unchanged_witness :
  bad_word_error = None <-> opinion_cleaned = opinion.
Proof.
  exact (nil_error_iff_unchanged Is_Punct_general To_LowerCase_latin
           To_LowerCase_latin_ok opinion opinion_cleaned bad_word_error
           opinion_run).
Defined.

Lemma result_is_shorter_witness :
  len opinion_cleaned
  + 2 * Z.of_nat
          (length (filter
                     (fun t => is_banned (strings.ToLower To_LowerCase_latin t))
                     (strings.Split opinion space)))
  <= len opinion.
Proof.
  exact (result_is_shorter Is_Punct_general To_LowerCase_latin
           To_LowerCase_latin_ok opinion opinion_cleaned bad_word_error
           opinion_run).
Defined.

Lemma processWords_around_space_witness :
  processWords Is_Punct_general To_LowerCase_latin
    (lit "FORNAX" ++ space :: e_acute)
  = match processWords Is_Punct_general To_LowerCase_latin (lit "FORNAX"),
          processWords Is_Punct_general To_LowerCase_latin e_acute with
    | Some (oa, ea), Some (ob, eb) =>
        Some (oa ++ space :: ob,
              match ea, eb with
              | None, None => None
              | _, _ => bad_word_error
              end)
    | _, _ => None
    end.
Proof.
  exact (processWords_around_space Is_Punct_general To_LowerCase_latin
           To_LowerCase_latin_ok (lit "FORNAX") e_acute).
Defined.

Lemma processWords_ascii_witness :
  processWords Is_Punct_general To_LowerCase_latin opinion
  = Some (strings.Join
            (map (fun t => if is_banned (map strings.ToLower_ascii t)
                           then mask else t)
                 (strings.Split opinion space)) [space],
          if existsb (fun t => is_banned (map strings.ToLower_ascii t))
                     (strings.Split opinion space)
          then bad_word_error else None).
Proof.
  exact (processWords_ascii Is_Punct_general To_LowerCase_latin opinion
           low_opinion).
Defined.

Lemma chirpHandler_world_witness :
  fileserverHits world0 = fileserverHits world0 /\
  (snd (plain_Decode (req_Body (chirp_request opinion))) = None ->
   world0 = world0) /\
  (forall e, snd (plain_Decode (req_Body (chirp_request opinion))) = Some e ->
     log_output world0 = log_output world0 ++ [log_decoding e] /\
     send_json 200 (cleaned_response plain_Marshal opinion_cleaned)
       new_response = WriteHeader 500 new_response).
Proof.
  assert (Hrun : chirpHandler Is_Punct_general To_LowerCase_latin
                   plain_Decode plain_Marshal new_response
                   (chirp_request opinion) world0
                 = Some (send_json 200
                           (cleaned_response plain_Marshal opinion_cleaned)
                           new_response, world0))
    by (vm_compute; reflexivity).
  pose proof (chirpHandler_world Is_Punct_general To_LowerCase_latin
                plain_Decode plain_Marshal plain_Marshal_ok new_response
                (chirp_request opinion) world0
                (send_json 200
                   (cleaned_response plain_Marshal opinion_cleaned)
                   new_response) world0) as H.
  exact (H Hrun).
Defined.

Lemma chirpHandler_status_witness :
  exists w' sigma',
    run_chirpHandler new_response (mkRequest (lit "{}")) world0
    = Some (w', sigma') /\
    (rw_status w' = Some 500 \/ rw_status w' = Some 400
     \/ rw_status w' = Some 200).
Proof.
  destruct (chirpHandler_status Is_Punct_general To_LowerCase_latin
              plain_Decode plain_Marshal plain_Marshal_ok
              To_LowerCase_latin_ok new_response (mkRequest (lit "{}"))
              world0 eq_refl) as (w' & sigma' & Hrun & Hst & _).
  exists w', sigma'. split; [exact Hrun | exact Hst].
Defined.

Lemma cleaned_text_is_clean_witness :
  exists out,
    run_chirpHandler new_response (chirp_request opinion) world0
    = Some (send_json 200 (cleaned_response plain_Marshal out) new_response,
            world0) /\
    len out <= 140.
Proof.
  assert (Hlen : len (Body (mkparameters opinion)) <= 140)
    by (vm_compute; discriminate).
  destruct (cleaned_text_is_clean Is_Punct_general To_LowerCase_latin
              plain_Decode plain_Marshal plain_Marshal_ok
              To_LowerCase_latin_ok new_response (chirp_request opinion)
              world0 (mkparameters opinion) (plain_Decode_chirp opinion)
              Hlen) as (out & Hrun & Hout & _).
  exists out. split; [exact Hrun | exact Hout].
Defined.

(** Three requests from the counter at 2147483646: past the largest
    [int32], the counter is negative. *)
Lemma middleware_counts_requests_witness :
  fileserverHits (mkWorld (-2147483647) []) = wrap32 (2147483646 + 3).
Proof.
  assert (Hrange : -2147483648
                   <= fileserverHits (mkWorld 2147483646 [])
                   <= 2147483647) by (cbn; lia).
  assert (Hrun : serve_all (middlewareMetricsInc run_chirpHandler)
                   [(new_response, chirp_request opinion);
                    (new_response, chirp_request opinion);
                    (new_response, chirp_request opinion)]
                   (mkWorld 2147483646 [])
                 = Some (mkWorld (-2147483647) []))
    by (vm_compute; reflexivity).
  exact (middleware_counts_requests run_chirpHandler
           [(new_response, chirp_request opinion);
            (new_response, chirp_request opinion);
            (new_response, chirp_request opinion)]
           (chirpHandler_keeps_counter _ _ _ _)
           (mkWorld 2147483646 []) (mkWorld (-2147483647) []) Hrange Hrun).
Defined.

Lemma metrics_page_reads_back_witness :
  exists w',
    getMetricsHandler new_response (mkRequest []) (mkWorld 42 [])
    = Some (w', mkWorld 42 []) /\
    rw_status w' = Some 200.
Proof.
  destruct (metrics_page_reads_back new_response (mkRequest [])
              (mkWorld 42 []) eq_refl) as (w' & Hrun & Hst & _).
  exists w'. split; [exact Hrun | exact Hst].
Defined.

Lemma fixed_fileServer_frame : keeps_counter fixed_fileServer.
Proof.
  intros w r s w' s' H. unfold fixed_fileServer in H.
  injection H as _ <-. reflexivity.
Qed.

Lemma not_found_frame : keeps_counter not_found.
Proof.
  intros w r s w' s' H. unfold not_found in H.
  injection H as _ <-. reflexivity.
Qed.


Lemma result_is_valid_utf8_witness :
  utf8_ValidString (lit "****" ++ space :: e_acute) = true.
Proof.
  assert (Hrun : processWords Is_Punct_general To_LowerCase_latin
                   (lit "Sharbert" ++ space :: e_acute)
                 = Some (lit "****" ++ space :: e_acute, bad_word_error))
    by (vm_compute; reflexivity).
  exact (result_is_valid_utf8 Is_Punct_general To_LowerCase_latin _ _ _
           To_LowerCase_latin_ok Hrun eq_refl).
Defined.
